(** * near-southside-data-map: the processing pipeline of [scripts/process_data.py]

    A shallow embedding of the tract/year panel builder, the spatial
    attribution of tracts to redevelopment boundaries, the dominant-sector
    selection and the dot-density synthesis, together with the properties
    the specification states about them.

    Conventions of the embedding.
    - A pandas numeric cell is a value of [fval]: a finite number, one of the
      two infinities, or NaN (the pandas notion of "missing").  Finite numbers
      are exact rationals kept in lowest terms; binary64 rounding, overflow and
      the sign of zero are not modelled.
    - A data-frame row is a function from column names to cells; a frame is
      the list of its rows in index order.
    - Library code (shapely predicates, pyproj reprojection, the Mersenne
      Twister behind [random]) enters through the interfaces [Shapely],
      [PyValue] and [PyRandom]; the definitions and theorems hold for every
      implementation of them. *)

From Stdlib Require Import ZArith QArith Qreduction List String Ascii Bool Lia.
From Stdlib Require Import Sorting.Sorted Sorting.Permutation Structures.OrderedTypeEx.
Import ListNotations.

Local Open Scope string_scope.
Local Open Scope Z_scope.

(* ================================================================== *)
(** * Numeric cells *)

Module Cell.

Inductive fval : Type :=
| Fin (q : Q)
| PInf
| NInf
| NaN.

(** An integer count read by [pd.to_numeric(..., errors="coerce")]:
    [None] is an unparseable or empty text cell. *)
Definition cell_of (o : option Z) : fval :=
  match o with
  | Some n => Fin (inject_Z n)
  | None => NaN
  end.

Definition isna (x : fval) : bool :=
  match x with NaN => true | _ => false end.

(** [a + b] on float cells. *)
Definition fadd (x y : fval) : fval :=
  match x, y with
  | NaN, _ | _, NaN => NaN
  | Fin a, Fin b => Fin (Qred (Qplus a b))
  | PInf, NInf | NInf, PInf => NaN
  | PInf, _ | _, PInf => PInf
  | NInf, _ | _, NInf => NInf
  end.

(** [a - b] on float cells. *)
Definition fsub (x y : fval) : fval :=
  match x, y with
  | NaN, _ | _, NaN => NaN
  | Fin a, Fin b => Fin (Qred (Qminus a b))
  | PInf, PInf | NInf, NInf => NaN
  | PInf, _ | _, NInf => PInf
  | NInf, _ | _, PInf => NInf
  end.

Definition qzero (q : Q) : bool := Qeq_bool q (0 # 1).
Definition qpos (q : Q) : bool := (0 <? Qnum q)%Z.

(** [a / b] on float cells: pandas divides without raising; a zero
    divisor gives NaN for a zero dividend and a signed infinity
    otherwise. *)
Definition fdiv (x y : fval) : fval :=
  match x, y with
  | NaN, _ | _, NaN => NaN
  | Fin a, Fin b =>
      if qzero b then
        if qzero a then NaN else if qpos a then PInf else NInf
      else Fin (Qred (Qdiv a b))
  | Fin _, _ => Fin (0 # 1)
  | PInf, Fin b => if qzero b || qpos b then PInf else NInf
  | NInf, Fin b => if qzero b || qpos b then NInf else PInf
  | _, _ => NaN
  end.

(** [Series.sum] / [DataFrame.sum(axis=1)] with the pandas defaults
    [skipna=True, min_count=0]: NaN cells are left out of the sum and
    the sum of nothing is 0. *)
Definition sum_skipna (l : list fval) : fval :=
  fold_left (fun acc x => if isna x then acc else fadd acc x) l (Fin (0 # 1)).

(** The same sum with every NaN cell replaced by 0 beforehand, nothing
    skipped. *)
Definition fillna0 (x : fval) : fval :=
  match x with NaN => Fin (0 # 1) | _ => x end.

Definition plain_sum (l : list fval) : fval :=
  fold_left fadd (map fillna0 l) (Fin (0 # 1)).

End Cell.
Export Cell.

(* ================================================================== *)
(** * Rows and the Indicator Deriver *)

(** A row maps a column name to its cell. *)
Definition row : Type := string -> fval.

(** [df[col] = v] on one row. *)
Definition set (col : string) (v : fval) (r : row) : row :=
  fun c => if String.eqb c col then v else r c.

(** [df[cols]] on one row. *)
Definition select (cols : list string) (r : row) : list fval := map r cols.

Definition under18_cols : list string :=
  [ "male_under5"; "male_5_9"; "male_10_14"; "male_15_17";
    "female_under5"; "female_5_9"; "female_10_14"; "female_15_17" ].

Definition age_18_64_cols : list string :=
  [ "male_18_19"; "male_20"; "male_21"; "male_22_24"; "male_25_29";
    "male_30_34"; "male_35_39"; "male_40_44"; "male_45_49"; "male_50_54";
    "male_55_59"; "male_60_61"; "male_62_64";
    "female_18_19"; "female_20"; "female_21"; "female_22_24"; "female_25_29";
    "female_30_34"; "female_35_39"; "female_40_44"; "female_45_49";
    "female_50_54"; "female_55_59"; "female_60_61"; "female_62_64" ].

Definition age_65_plus_cols : list string :=
  [ "male_65_66"; "male_67_69"; "male_70_74"; "male_75_79"; "male_80_84";
    "male_85_plus";
    "female_65_66"; "female_67_69"; "female_70_74"; "female_75_79";
    "female_80_84"; "female_85_plus" ].

(** [compute_age_bands], on one row. *)
Definition compute_age_bands (r : row) : row :=
  let r := set "age_under18" (sum_skipna (select under18_cols r)) r in
  let r := set "age_18_64" (sum_skipna (select age_18_64_cols r)) r in
  let r := set "age_65_plus" (sum_skipna (select age_65_plus_cols r)) r in
  r.

(** [compute_rates], on one row. *)
Definition compute_rates (r : row) : row :=
  let r := set "poverty_rate" (fdiv (r "poverty_pop") (r "poverty_total")) r in
  let r := set "owner_rate"
             (fdiv (r "owner_occ") (fadd (r "owner_occ") (r "renter_occ"))) r in
  let r := set "renter_rate"
             (fdiv (r "renter_occ") (fadd (r "owner_occ") (r "renter_occ"))) r in
  let r := set "ba_plus"
             (fadd (fadd (fadd (r "edu_ba") (r "edu_ma")) (r "edu_prof"))
                   (r "edu_phd")) r in
  let r := set "ba_plus_rate" (fdiv (r "ba_plus") (r "edu_total_25plus")) r in
  let r := set "hispanic_rate" (fdiv (r "race_hispanic") (r "race_total")) r in
  r.

(** The three derived bands with the columns each one adds up. *)
Definition age_bands : list (string * list string) :=
  [ ("age_under18", under18_cols);
    ("age_18_64", age_18_64_cols);
    ("age_65_plus", age_65_plus_cols) ].

(** The five rates with their dividend and divisor, read on the input row. *)
Definition rate_table : list (string * ((row -> fval) * (row -> fval))) :=
  [ ("poverty_rate", (fun r => r "poverty_pop", fun r => r "poverty_total"));
    ("owner_rate", (fun r => r "owner_occ",
                    fun r => fadd (r "owner_occ") (r "renter_occ")));
    ("renter_rate", (fun r => r "renter_occ",
                     fun r => fadd (r "owner_occ") (r "renter_occ")));
    ("ba_plus_rate",
      (fun r => fadd (fadd (fadd (r "edu_ba") (r "edu_ma")) (r "edu_prof"))
                     (r "edu_phd"),
       fun r => r "edu_total_25plus"));
    ("hispanic_rate", (fun r => r "race_hispanic", fun r => r "race_total")) ].

(** Integer total of the counts present in the given columns, a missing
    count contributing nothing. *)
Definition present_total (m : string -> option Z) (cols : list string) : Z :=
  fold_right (fun c acc => match m c with Some n => n | None => 0 end + acc) 0 cols.

(* ================================================================== *)
(** * Library interfaces *)

(** What the pipeline uses of shapely, geopandas and pyproj. *)
Class Shapely : Type := {
  coord : Type;
  geom : Type;
  (** [a.intersects(b)], the predicate of [gpd.sjoin(..., predicate="intersects")] *)
  intersects : geom -> geom -> bool;
  (** [g.contains(Point(x, y))] *)
  contains : geom -> coord * coord -> bool;
  (** [g.bounds]: (minx, miny, maxx, maxy) *)
  bounds : geom -> coord * coord * coord * coord;
  (** the coordinate transformation behind [to_crs]: source CRS, target CRS *)
  reproject : string -> string -> geom -> geom
}.

(** A Python value held in a column of the boundary table, with
    [Series.astype(str)]. *)
Class PyValue : Type := {
  value : Type;
  astype_str : value -> string
}.

(** The module-level generator of Python's [random]: [random.seed(a)]
    replaces the whole state by one that depends on [a] only, and
    [random.uniform(a, b)] returns a number and advances the state. *)
Class PyRandom (C : Type) : Type := {
  rng : Type;
  seed : Z -> rng;
  uniform : C -> C -> rng -> C * rng
}.

(* ================================================================== *)
(** * Geo frames *)

Record frame (A : Type) : Type := mkFrame {
  crs : string;
  rows : list A
}.
Arguments mkFrame {A} _ _.
Arguments crs {A} _.
Arguments rows {A} _.

Section Spatial.
Context {S : Shapely} {V : PyValue}.

(** A tract polygon of [tracts_dfw.geojson], as the download step writes
    the file. *)
Record tract : Type := mkTract {
  GEOID : string;
  COUNTYFP : string;
  t_geometry : geom
}.

(** A polygon of the redevelopment-boundary table with its attribute
    columns. *)
Record boundary : Type := mkBoundary {
  b_cells : string -> value;
  b_geometry : geom
}.

(** The boundary table: its frame and, per column in order, the name and
    whether its dtype is [object]. *)
Record boundary_table : Type := mkBoundaryTable {
  bt_columns : list (string * bool);
  bt_frame : frame boundary
}.

(** [gdf.to_crs(target)] *)
Definition to_crs {A : Type} (on_geom : (geom -> geom) -> A -> A)
           (target : string) (f : frame A) : frame A :=
  mkFrame target (map (on_geom (reproject (crs f) target)) (rows f)).

Definition tract_map_geom (h : geom -> geom) (t : tract) : tract :=
  mkTract (GEOID t) (COUNTYFP t) (h (t_geometry t)).

Definition boundary_map_geom (h : geom -> geom) (b : boundary) : boundary :=
  mkBoundary (b_cells b) (h (b_geometry b)).

(** [download_tracts] of [download_data.py], from the frame read from the
    TIGER archive to the frame written to [tracts_dfw.geojson]. *)
Definition download_tracts (dfw_counties : list string) (tracts : frame tract)
  : frame tract :=
  let tracts :=
    mkFrame (crs tracts)
      (filter (fun t => existsb (String.eqb (COUNTYFP t)) dfw_counties)
              (rows tracts)) in
  to_crs tract_map_geom "EPSG:4326" tracts.

(** [read_redev_boundaries] of [download_data.py], from the frame read
    from the archive to the frame written to [redev_orgs.geojson]. *)
Definition read_redev_boundaries (gdf : boundary_table) : boundary_table :=
  mkBoundaryTable (bt_columns gdf)
    (to_crs boundary_map_geom "EPSG:4326" (bt_frame gdf)).

Definition candidates : list string :=
  [ "ORG_NAME"; "ORGANIZATION"; "REDEV_ORG"; "REDEV_NAME"; "NAME"; "ORG" ].

(** [pick_name_column]; [None] is the [IndexError] of [gdf.columns[0]] on
    a table without columns. *)
Definition pick_name_column (columns : list (string * bool)) : option string :=
  match find (fun col => existsb (String.eqb col) (map fst columns)) candidates with
  | Some col => Some col
  | None =>
      match find (fun c => snd c) columns with
      | Some c => Some (fst c)
      | None =>
          match columns with
          | c :: _ => Some (fst c)
          | [] => None
          end
      end
  end.

(** A row of the joined frame; [None] is a null label. *)
Record labelled : Type := mkLabelled {
  l_tract : tract;
  l_redev_name : option string
}.

(** The rows [gpd.sjoin(..., how="left")] makes of one left row: one per
    right row it intersects, and one with a null label when it intersects
    none.  The geometries are compared as they are in the two frames. *)
Definition matches_of (right_df : frame (string * geom)) (t : tract)
  : list labelled :=
  match filter (fun b => intersects (t_geometry t) (snd b)) (rows right_df) with
  | [] => [ mkLabelled t None ]
  | ms => map (fun b => mkLabelled t (Some (fst b))) ms
  end.

(** [gpd.sjoin(left, right, predicate="intersects", how="left")] *)
Definition sjoin (left_df : frame tract) (right_df : frame (string * geom))
  : frame labelled :=
  mkFrame (crs left_df) (flat_map (matches_of right_df) (rows left_df)).

(** [joined["redev_name"].fillna("None")] *)
Definition fillna_label (o : option string) : option string :=
  match o with
  | Some s => Some s
  | None => Some "None"
  end.

(** The two frames [add_redev_to_tracts] hands to [gpd.sjoin]. *)
Definition sjoin_operands (tracts : frame tract) (redev : boundary_table)
  : option (frame tract * frame (string * geom)) :=
  match pick_name_column (bt_columns redev) with
  | None => None
  | Some name_col =>
      let redev :=
        mkFrame (crs (bt_frame redev))
          (map (fun b => (astype_str (b_cells b name_col), b_geometry b))
               (rows (bt_frame redev))) in
      Some (tracts, redev)
  end.

(** [add_redev_to_tracts] *)
Definition add_redev_to_tracts (tracts : frame tract) (redev : boundary_table)
  : option (frame labelled) :=
  match sjoin_operands tracts redev with
  | None => None
  | Some (left_df, right_df) =>
      let joined := sjoin left_df right_df in
      Some (mkFrame (crs joined)
              (map (fun j => mkLabelled (l_tract j) (fillna_label (l_redev_name j)))
                   (rows joined)))
  end.

End Spatial.

(* ================================================================== *)
(** * Panel Builder *)

(** A record of the concatenated ACS extracts after the variable codes
    have been renamed and the indicator columns coerced to numbers. *)
Record acs_row : Type := mkAcs {
  a_state : string;
  a_county : string;
  a_tract : string;
  a_year : Z;
  a_cells : row
}.

(** A row of the panel; [None] is a null label. *)
Record panel_row : Type := mkPanelRow {
  geoid : string;
  year : Z;
  redev_name : option string;
  cells : row
}.

(** The panel as written to [acs_panel.csv]: its rows and, per numeric
    column, the column of deltas under its [delta_] name. *)
Record panel : Type := mkPanel {
  p_rows : list panel_row;
  p_delta : list (string * list fval)
}.

Definition keep_cols : list string :=
  [ "geoid"; "year"; "redev_name"; "total_pop"; "median_income";
    "poverty_total"; "poverty_pop"; "poverty_rate"; "owner_occ"; "renter_occ";
    "owner_rate"; "renter_rate"; "edu_total_25plus"; "ba_plus"; "ba_plus_rate";
    "race_total"; "race_white"; "race_black"; "race_native"; "race_asian";
    "race_pacific"; "race_other"; "race_two_plus"; "race_hispanic";
    "hispanic_rate"; "age_under18"; "age_18_64"; "age_65_plus" ].

(** [[c for c in panel.columns if c not in ("geoid", "year", "redev_name")]] *)
Definition numeric : list string :=
  filter (fun c => negb (existsb (String.eqb c) ["geoid"; "year"; "redev_name"]))
         keep_cols.

(** [acs.merge(labels, left_on="geoid", right_on="GEOID", how="left")]:
    every left row once per right row with its key, in the order of the
    left rows, and once with a null label when no right row has its key. *)
Definition merge_left (acs : list panel_row) (labels : list (string * option string))
  : list panel_row :=
  flat_map
    (fun a =>
       match filter (fun l => String.eqb (fst l) (geoid a)) labels with
       | [] => [ mkPanelRow (geoid a) (year a) None (cells a) ]
       | ms => map (fun l => mkPanelRow (geoid a) (year a) (snd l) (cells a)) ms
       end)
    acs.

(** Ascending order on ([geoid], [year]): strings by code point, years as
    integers. *)
Definition key_leb (a b : panel_row) : bool :=
  match String.compare (geoid a) (geoid b) with
  | Lt => true
  | Eq => year a <=? year b
  | Gt => false
  end.

Definition key_le (a b : panel_row) : Prop := key_leb a b = true.

(** The join key of a panel row. *)
Definition key_of (r : panel_row) : string * Z := (geoid r, year r).

Fixpoint insert_row (x : panel_row) (l : list panel_row) : list panel_row :=
  match l with
  | [] => [x]
  | y :: t => if key_leb x y then x :: y :: t else y :: insert_row x t
  end.

(** [panel.sort_values(["geoid", "year"]).reset_index(drop=True)] *)
Definition sort_values (l : list panel_row) : list panel_row :=
  fold_right insert_row [] l.

(** The scan behind [groupby(key)[col].diff()]: each value minus the value
    of the previous row of the same group, NaN on the first row of a group.
    [prev] holds the last value seen in each group. *)
Fixpoint diff_scan (prev : string -> option fval) (kv : list (string * fval))
  : list fval :=
  match kv with
  | [] => []
  | (k, v) :: t =>
      match prev k with
      | None => NaN
      | Some p => fsub v p
      end
      :: diff_scan (fun k' => if String.eqb k' k then Some v else prev k') t
  end.

(** [panel.groupby("geoid")[col].diff()] *)
Definition groupby_diff (col : string) (l : list panel_row) : list fval :=
  diff_scan (fun _ => None) (map (fun r => (geoid r, cells r col)) l).

(** The value [diff_scan] subtracts at a row of group [k]: the value of the
    last row of that group among the rows [before] it, [start] when there is
    none. *)
Fixpoint prev_value (k : string) (before : list (string * fval))
         (start : option fval) : option fval :=
  match before with
  | [] => start
  | (k', v) :: t => prev_value k t (if String.eqb k k' then Some v else start)
  end.

(** Number of panel rows with the given tract identifier and year. *)
Definition count_rows (g : string) (y : Z) (l : list panel_row) : nat :=
  List.length (filter (fun r => String.eqb (geoid r) g && (year r =? y)) l).

Section Panel.
Context {S : Shapely} {V : PyValue}.

(** [prepare_acs_panel], from the concatenated ACS table and the two
    boundary frames to the panel it returns.  The files it writes on the
    way are not part of the model. *)
Definition prepare_acs_panel (acs : list acs_row) (tracts : frame tract)
           (redev : boundary_table) : option panel :=
  let acs :=
    map (fun a =>
           mkPanelRow (a_state a ++ a_county a ++ a_tract a) (a_year a) None
             (compute_rates (compute_age_bands (a_cells a))))
        acs in
  match add_redev_to_tracts tracts redev with
  | None => None
  | Some tracts =>
      let acs :=
        merge_left acs
          (map (fun j => (GEOID (l_tract j), l_redev_name j)) (rows tracts)) in
      let acs :=
        map (fun r => mkPanelRow (geoid r) (year r) (fillna_label (redev_name r))
                        (cells r))
            acs in
      let panel := sort_values acs in
      Some (mkPanel panel
              (map (fun col => ("delta_" ++ col, groupby_diff col panel)) numeric))
  end.

End Panel.

(* ================================================================== *)
(** * Sector tables and the Dominant-Sector Selector *)

Definition SECTOR_MAP : list (string * string) :=
  [ ("CNS01", "Agriculture_Forestry_Fishing");
    ("CNS02", "Mining");
    ("CNS03", "Utilities");
    ("CNS04", "Construction");
    ("CNS05", "Manufacturing");
    ("CNS06", "Wholesale_Trade");
    ("CNS07", "Retail_Trade");
    ("CNS08", "Transportation_Warehousing");
    ("CNS09", "Information");
    ("CNS10", "Finance_Insurance");
    ("CNS11", "Real_Estate_Rental");
    ("CNS12", "Professional_Scientific_Technical");
    ("CNS13", "Management_Companies");
    ("CNS14", "Admin_Waste_Services");
    ("CNS15", "Educational_Services");
    ("CNS16", "Health_Care_Social_Assistance");
    ("CNS17", "Arts_Entertainment_Recreation");
    ("CNS18", "Accommodation_Food_Services");
    ("CNS19", "Other_Services");
    ("CNS20", "Public_Administration") ].

Definition sector_cols : list string := map fst SECTOR_MAP.

(** [SECTOR_MAP.get(code)], as [Series.map] applies it. *)
Definition sector_lookup (code : string) : option string :=
  option_map snd (find (fun kv => String.eqb (fst kv) code) SECTOR_MAP).

(** A row of the aggregated tract-by-sector table: one integer count per
    sector column. *)
Record wide_row : Type := mkWide {
  w_geoid : string;
  w_redev_name : option string;
  w_counts : string -> Z
}.

(** A row of the long-form table [long_df]. *)
Record long_row : Type := mkLong {
  lr_geoid : string;
  lr_redev_name : option string;
  naics_sector : string;
  jobs : Z;
  sector_name : option string
}.

(** [lodes.melt(id_vars=["geoid", "redev_name"], value_vars=sector_cols, ...)]
    followed by the [sector_name] column: the rows of the first sector
    column for every tract, then those of the second, and so on. *)
Definition melt (lodes : list wide_row) : list long_row :=
  flat_map
    (fun s =>
       map (fun w => mkLong (w_geoid w) (w_redev_name w) s (w_counts w s)
                       (sector_lookup s))
           lodes)
    sector_cols.

(** The rows of the group of [g] with their index labels. *)
Definition group_of (g : string) (long_df : list long_row) : list (nat * long_row) :=
  filter (fun ir => String.eqb (lr_geoid (snd ir)) g)
         (combine (seq 0 (List.length long_df)) long_df).

Definition max_jobs (grp : list (nat * long_row)) : option Z :=
  match grp with
  | [] => None
  | ir :: t => Some (fold_left (fun m x => Z.max m (jobs (snd x))) t (jobs (snd ir)))
  end.

(** [Series.idxmax] on the group of [g]: the index label of the first
    occurrence of the maximum. *)
Definition idxmax (g : string) (long_df : list long_row) : option nat :=
  let grp := group_of g long_df in
  match max_jobs grp with
  | None => None
  | Some m => option_map fst (find (fun ir => jobs (snd ir) =? m) grp)
  end.

Fixpoint insert_key (x : string) (l : list string) : list string :=
  match l with
  | [] => [x]
  | y :: t => if String.leb x y then x :: y :: t else y :: insert_key x t
  end.

(** The group keys of [groupby("geoid")]: the distinct identifiers in
    ascending order. *)
Definition group_keys (long_df : list long_row) : list string :=
  fold_right insert_key [] (nodup string_dec (map lr_geoid long_df)).

(** [long_df.loc[long_df.groupby("geoid")["jobs"].idxmax()]] *)
Definition dominant (long_df : list long_row) : list long_row :=
  flat_map
    (fun g =>
       match idxmax g long_df with
       | Some i => match nth_error long_df i with Some r => [r] | None => [] end
       | None => []
       end)
    (group_keys long_df).

(* ================================================================== *)
(** * Sector Aggregator and Dot-Density Synthesizer *)

(** A workplace record of the LODES file after its sector columns have
    been coerced to integers. *)
Record origin_row : Type := mkOrigin {
  h_geocode : string;
  o_counts : string -> Z
}.

Definition jobs_per_dot : Z := 50.
Definition max_dots_per_tract : Z := 250.

(** [min(int(row.jobs // jobs_per_dot), max_dots_per_tract)] *)
Definition dot_count (j : Z) : Z := Z.min (j / jobs_per_dot) max_dots_per_tract.

Section Lodes.
Context {S : Shapely} {R : PyRandom coord}.

(** [lodes.groupby("geoid", as_index=False)[sector_cols].sum()] merged
    (inner) with the labelled tracts on the tract identifier. *)
Definition aggregate (origin : list origin_row) (tracts : list labelled)
  : list wide_row :=
  let key o := substring 0 11 (h_geocode o) in
  let keys := fold_right insert_key [] (nodup string_dec (map key origin)) in
  flat_map
    (fun g =>
       let total s :=
         fold_right Z.add 0
           (map (fun o => o_counts o s)
                (filter (fun o => String.eqb (key o) g) origin)) in
       map (fun t => mkWide g (l_redev_name t) total)
           (filter (fun t => String.eqb (GEOID (l_tract t)) g) tracts))
    keys.

(** A synthesized job dot. *)
Record dot : Type := mkDot {
  d_geometry : coord * coord;
  d_geoid : string;
  d_redev_name : option string;
  d_naics_sector : string;
  d_sector_name : option string
}.

(** What [tracts_index.loc[geoid, "geometry"]] evaluates to: one geometry
    when the identifier labels one row, a series when it labels several,
    a [KeyError] when it labels none. *)
Inductive loc_result : Type :=
| LocScalar (g : geom)
| LocSeries (gs : list geom)
| LocKeyError.

Definition loc_geometry (tracts : list labelled) (g : string) : loc_result :=
  match filter (fun t => String.eqb (GEOID (l_tract t)) g) tracts with
  | [] => LocKeyError
  | [t] => LocScalar (t_geometry (l_tract t))
  | ts => LocSeries (map (fun t => t_geometry (l_tract t)) ts)
  end.

(** One draw from the bounding rectangle: [x] first, then [y]. *)
Definition draw_point (g : geom) (st : rng) : (coord * coord) * rng :=
  let '(minx, miny, maxx, maxy) := bounds g in
  let (x, st) := uniform minx maxx st in
  let (y, st) := uniform miny maxy st in
  ((x, y), st).

(** The dot appended for a row at an accepted point. *)
Definition dot_of (r : long_row) (p : coord * coord) : dot :=
  mkDot p (lr_geoid r) (lr_redev_name r) (naics_sector r) (sector_name r).

(** The inner loop [for _attempt in range(n)]. *)
Fixpoint place_attempts (n : nat) (g : geom) (r : long_row) (st : rng)
  : option dot * rng :=
  match n with
  | O => (None, st)
  | Datatypes.S n' =>
      let (p, st) := draw_point g st in
      if contains g p
      then (Some (dot_of r p), st)
      else place_attempts n' g r st
  end.

(** The loop [for _ in range(count)]. *)
Fixpoint place_dots (count : nat) (g : geom) (r : long_row) (st : rng)
  : list dot * rng :=
  match count with
  | O => ([], st)
  | Datatypes.S c =>
      let (o, st) := place_attempts 20 g r st in
      let (ds, st) := place_dots c g r st in
      (match o with Some d => d :: ds | None => ds end, st)
  end.

(** The body of the loop over [long_df] for one row: the dots it appends
    and the generator state it leaves; [None] when it raises.  A missing
    identifier raises at the lookup; a series of geometries raises at
    [tract_bounds[0]], which is reached only when there is a dot to
    place. *)
Definition row_dots (tracts : list labelled) (r : long_row) (st : rng)
  : option (list dot * rng) :=
  if jobs r <=? 0 then Some ([], st)
  else
    match loc_geometry tracts (lr_geoid r) with
    | LocKeyError => None
    | LocScalar g => Some (place_dots (Z.to_nat (dot_count (jobs r))) g r st)
    | LocSeries _ => if dot_count (jobs r) <=? 0 then Some ([], st) else None
    end.

Fixpoint rows_dots (tracts : list labelled) (l : list long_row) (st : rng)
  : option (list dot * rng) :=
  match l with
  | [] => Some ([], st)
  | r :: t =>
      match row_dots tracts r st with
      | None => None
      | Some (ds, st) =>
          match rows_dots tracts t st with
          | None => None
          | Some (ds', st) => Some ((ds ++ ds')%list, st)
          end
      end
  end.

(** The synthesis pass of [process_lodes]: [random.seed(42)] and the loop
    over [long_df].  [ambient] is the state of the module-level generator
    when the pass starts; the result carries the state it ends in. *)
Definition synthesize (tracts : list labelled) (long_df : list long_row)
           (ambient : rng) : option (list dot * rng) :=
  let st := seed 42 in
  rows_dots tracts long_df st.

(** The tables [process_lodes] writes. *)
Record lodes_outputs : Type := mkOutputs {
  out_long : list long_row;
  out_dominant : list long_row;
  out_dots : list dot
}.

(** [process_lodes] *)
Definition process_lodes (origin : list origin_row) (tracts : frame labelled)
           (ambient : rng) : option (lodes_outputs * rng) :=
  let lodes := aggregate origin (rows tracts) in
  let long_df := melt lodes in
  match synthesize (rows tracts) long_df ambient with
  | None => None
  | Some (dots, st) => Some (mkOutputs long_df (dominant long_df) dots, st)
  end.

(** What is stated of the dots [ds] the loop body appends for row [r]:
    none without a positive count, at most the target otherwise, each
    carrying the attributes of the row and lying inside the one polygon
    its tract identifier labels. *)
Definition row_ok (tracts : list labelled) (r : long_row) (ds : list dot) : Prop :=
  (jobs r <= 0 -> ds = [])
  /\ (jobs r / 50 = 0 -> ds = [])
  /\ (0 < jobs r ->
      Z.of_nat (List.length ds) <= dot_count (jobs r)
      /\ dot_count (jobs r) = Z.min (jobs r / 50) 250
      /\ dot_count (jobs r) <= 250)
  /\ (forall d, In d ds ->
        (exists p, d = dot_of r p)
        /\ exists t, filter (fun t => String.eqb (GEOID (l_tract t)) (d_geoid d)) tracts
                     = [t]
                     /\ contains (t_geometry (l_tract t)) (d_geometry d) = true).

(** The generator state after [n] draws from the bounding rectangle, and
    the point the next draw gives. *)
Fixpoint after_draws (n : nat) (g : geom) (st : rng) : rng :=
  match n with
  | O => st
  | Datatypes.S n' => after_draws n' g (snd (draw_point g st))
  end.

Definition nth_draw (n : nat) (g : geom) (st : rng) : coord * coord :=
  fst (draw_point g (after_draws n g st)).

End Lodes.

(* ================================================================== *)
(** * Concrete instances used in the examples *)

Module Toy.

(** Axis-parallel rectangles on the integer grid, (minx, miny, maxx, maxy):
    two rectangles intersect when they share a point, a point is contained
    when it is in the interior. *)
Definition box : Type := (Z * Z * Z * Z)%type.

Definition box_intersects (a b : box) : bool :=
  let '(ax0, ay0, ax1, ay1) := a in
  let '(bx0, by0, bx1, by1) := b in
  (ax0 <=? bx1) && (bx0 <=? ax1) && (ay0 <=? by1) && (by0 <=? ay1).

Definition box_contains (a : box) (p : Z * Z) : bool :=
  let '(x0, y0, x1, y1) := a in
  (x0 <? fst p) && (fst p <? x1) && (y0 <? snd p) && (snd p <? y1).

Definition boxes : Shapely :=
  {| coord := Z;
     geom := box;
     intersects := box_intersects;
     contains := box_contains;
     bounds := fun b => b;
     reproject := fun _ _ b => b |}.

Definition text : PyValue :=
  {| value := string; astype_str := fun s => s |}.

(** A linear congruential generator standing in for the Mersenne
    Twister. *)
Definition lcg_next (st : Z) : Z := (st * 1103515245 + 12345) mod 2147483648.

Definition lcg : PyRandom Z :=
  {| rng := Z;
     seed := fun a => a;
     uniform := fun a b st =>
                  let st' := lcg_next st in
                  (a + (st' / 65536) mod (b - a + 1), st') |}.

Definition const_row (v : fval) : row := fun _ => v.

(** Two tracts in NAD83 and two boundaries in a state-plane system; the
    first tract meets both boundaries, the second meets none. *)
Definition tract_a : @tract boxes := @mkTract boxes "48439100100" "439" (0, 0, 10, 10).
Definition tract_b : @tract boxes := @mkTract boxes "48439100200" "439" (20, 0, 30, 10).

Definition named (name : string) : string -> string :=
  fun c => if String.eqb c "NAME" then name else "1".

Definition boundary_a : @boundary boxes text :=
  @mkBoundary boxes text (named "Near Southside") (0, 0, 5, 5).
Definition boundary_b : @boundary boxes text :=
  @mkBoundary boxes text (named "Fairmount") (5, 5, 12, 12).

Definition tracts : frame (@tract boxes) :=
  mkFrame "EPSG:4269" [tract_a; tract_b].

Definition redev : @boundary_table boxes text :=
  @mkBoundaryTable boxes text [("OBJECTID", false); ("NAME", true); ("geometry", false)]
    (mkFrame "EPSG:2276" [boundary_a; boundary_b]).

(** The same table with the second boundary only. *)
Definition redev_single : @boundary_table boxes text :=
  @mkBoundaryTable boxes text [("OBJECTID", false); ("NAME", true); ("geometry", false)]
    (mkFrame "EPSG:2276" [boundary_b]).

(** ACS records: a population of [n] and zero in every other column. *)
Definition acs_cells (n : Z) : row :=
  fun c => if String.eqb c "total_pop" then Fin (inject_Z n) else Fin (0 # 1).

(** The aggregated job table: no jobs in the first tract, 120 retail and
    30 manufacturing jobs in the second. *)
Definition lodes : list wide_row :=
  [ mkWide "48439100100" (Some "Fairmount") (fun _ => 0);
    mkWide "48439100200" (Some "None")
      (fun s => if String.eqb s "CNS07" then 120
                else if String.eqb s "CNS05" then 30 else 0) ].

(** The labelled tracts as [process_lodes] reads them back. *)
Definition labelled_tracts : list (@labelled boxes) :=
  [ @mkLabelled boxes tract_a (Some "Fairmount");
    @mkLabelled boxes tract_b (Some "None") ].

Definition acs_a_2020 : acs_row := mkAcs "48" "439" "100100" 2020 (acs_cells 100).
Definition acs_a_2021 : acs_row := mkAcs "48" "439" "100100" 2021 (acs_cells 130).
Definition acs_b_2020 : acs_row := mkAcs "48" "439" "100200" 2020 (acs_cells 80).

End Toy.

(* ================================================================== *)
(** * Schema Normalizer, snapshot and metadata of [prepare_acs_panel] *)

Definition ACS_VARIABLES : list (string * string) :=
  [
    ("total_pop", "B01003_001E");
    ("median_income", "B19013_001E");
    ("poverty_total", "B17001_001E");
    ("poverty_pop", "B17001_002E");
    ("edu_total_25plus", "B15003_001E");
    ("edu_ba", "B15003_022E");
    ("edu_ma", "B15003_023E");
    ("edu_prof", "B15003_024E");
    ("edu_phd", "B15003_025E");
    ("owner_occ", "B25003_002E");
    ("renter_occ", "B25003_003E");
    ("race_total", "B03002_001E");
    ("race_white", "B03002_003E");
    ("race_black", "B03002_004E");
    ("race_native", "B03002_005E");
    ("race_asian", "B03002_006E");
    ("race_pacific", "B03002_007E");
    ("race_other", "B03002_008E");
    ("race_two_plus", "B03002_009E");
    ("race_hispanic", "B03002_012E");
    ("male_under5", "B01001_003E");
    ("male_5_9", "B01001_004E");
    ("male_10_14", "B01001_005E");
    ("male_15_17", "B01001_006E");
    ("male_18_19", "B01001_007E");
    ("male_20", "B01001_008E");
    ("male_21", "B01001_009E");
    ("male_22_24", "B01001_010E");
    ("male_25_29", "B01001_011E");
    ("male_30_34", "B01001_012E");
    ("male_35_39", "B01001_013E");
    ("male_40_44", "B01001_014E");
    ("male_45_49", "B01001_015E");
    ("male_50_54", "B01001_016E");
    ("male_55_59", "B01001_017E");
    ("male_60_61", "B01001_018E");
    ("male_62_64", "B01001_019E");
    ("male_65_66", "B01001_020E");
    ("male_67_69", "B01001_021E");
    ("male_70_74", "B01001_022E");
    ("male_75_79", "B01001_023E");
    ("male_80_84", "B01001_024E");
    ("male_85_plus", "B01001_025E");
    ("female_under5", "B01001_027E");
    ("female_5_9", "B01001_028E");
    ("female_10_14", "B01001_029E");
    ("female_15_17", "B01001_030E");
    ("female_18_19", "B01001_031E");
    ("female_20", "B01001_032E");
    ("female_21", "B01001_033E");
    ("female_22_24", "B01001_034E");
    ("female_25_29", "B01001_035E");
    ("female_30_34", "B01001_036E");
    ("female_35_39", "B01001_037E");
    ("female_40_44", "B01001_038E");
    ("female_45_49", "B01001_039E");
    ("female_50_54", "B01001_040E");
    ("female_55_59", "B01001_041E");
    ("female_60_61", "B01001_042E");
    ("female_62_64", "B01001_043E");
    ("female_65_66", "B01001_044E");
    ("female_67_69", "B01001_045E");
    ("female_70_74", "B01001_046E");
    ("female_75_79", "B01001_047E");
    ("female_80_84", "B01001_048E");
    ("female_85_plus", "B01001_049E") ].

(** The loop of [prepare_acs_panel] over [ACS_VARIABLES.items()]: each code
    must label a column of the table and is renamed to its semantic name.
    [inl code] is the [RuntimeError] naming the missing code, [inr columns]
    the column labels after all the renamings. *)
Fixpoint rename_variables (vars : list (string * string)) (columns : list string)
  : string + list string :=
  match vars with
  | [] => inr columns
  | (key, value) :: t =>
      if existsb (String.eqb value) columns
      then rename_variables t
             (map (fun c => if String.eqb c value then key else c) columns)
      else inl value
  end.

(** [panel["year"].max()]; [None] is the NaN of an empty column. *)
Definition latest_year (l : list panel_row) : option Z :=
  match l with
  | [] => None
  | r :: t => Some (fold_left (fun m x => Z.max m (year x)) t (year r))
  end.

(** [panel[panel["year"] == latest_year]] *)
Definition latest (l : list panel_row) : list panel_row :=
  match latest_year l with
  | None => []
  | Some y => filter (fun r => year r =? y) l
  end.

(** The record written to [acs_metadata.json]; [int(latest_year)] raises on
    NaN, which is [None] here. *)
Record metadata : Type := mkMeta {
  m_latest_year : Z;
  m_acs_variables : list string;
  m_delta_variables : list string
}.

Definition acs_metadata (l : list panel_row) : option metadata :=
  match latest_year l with
  | None => None
  | Some y => Some (mkMeta y keep_cols (map (fun c => "delta_" ++ c) numeric))
  end.

Section Snapshot.
Context {S : Shapely}.

(** A row of [acs_latest.geojson]: a labelled tract with the panel row
    merged onto it, if any. *)
Record snapshot_row : Type := mkSnapshot {
  s_tract : labelled;
  s_row : option panel_row
}.

(** [tracts.merge(latest, left_on="GEOID", right_on="geoid", how="left")] *)
Definition acs_latest (tracts : list labelled) (l : list panel_row)
  : list snapshot_row :=
  flat_map
    (fun t =>
       match filter (fun r => String.eqb (geoid r) (GEOID (l_tract t))) (latest l) with
       | [] => [ mkSnapshot t None ]
       | ms => map (fun r => mkSnapshot t (Some r)) ms
       end)
    tracts.

End Snapshot.

(** [lodes["h_geocode"].str.slice(0, 11)]: the tract identifier of a
    workplace record. *)
Definition tract_of (o : origin_row) : string := substring 0 11 (h_geocode o).

(* ================================================================== *)
(** * Year probing of [download_data.py] *)

(** [range(start_year, end_year + 1)] *)
Definition year_range (start_year end_year : Z) : list Z :=
  map (fun i => start_year + Z.of_nat i)
      (seq 0 (Z.to_nat (end_year + 1 - start_year))).

(** [detect_years].  [probe year] is the outcome of the request for that
    year: [Some code] is the status code of the response, [None] a
    [requests.RequestException]; [now_year] is [dt.datetime.now().year]. *)
Definition detect_years (probe : Z -> option Z) (now_year : Z)
           (start_year : Z) (end_year : option Z) : list Z :=
  let end_year := match end_year with None => now_year | Some e => e end in
  filter (fun y => match probe y with
                   | Some code => code =? 200
                   | None => false
                   end)
         (year_range start_year end_year).

(* ================================================================== *)
(** * Sample inputs of the further examples *)

Module Sample.

(** Workplace records: two blocks of the second toy tract and one block of
    a tract outside the tract file. *)
Definition origin : list origin_row :=
  [ mkOrigin "484391002001001"
      (fun s => if String.eqb s "CNS07" then 70 else 0);
    mkOrigin "484391002002002"
      (fun s => if String.eqb s "CNS07" then 50
                else if String.eqb s "CNS05" then 30 else 0);
    mkOrigin "481130001001001" (fun _ => 5) ].

(** The labelled tracts of the toy tract file with one boundary. *)
Definition tracts : frame (@labelled Toy.boxes) :=
  mkFrame "EPSG:4326" Toy.labelled_tracts.

(** The labelled tracts when the first tract has met two boundaries. *)
Definition tracts_twice : frame (@labelled Toy.boxes) :=
  mkFrame "EPSG:4326"
    [ @mkLabelled Toy.boxes Toy.tract_a (Some "Near Southside");
      @mkLabelled Toy.boxes Toy.tract_a (Some "Fairmount");
      @mkLabelled Toy.boxes Toy.tract_b (Some "None") ].

(** A workplace block of the first tract with 60 retail jobs. *)
Definition origin_a : list origin_row :=
  [ mkOrigin "484391001001001"
      (fun s => if String.eqb s "CNS07" then 60 else 0) ].

(** An aggregated table with a tie: 40 jobs in manufacturing and in retail,
    10 in construction. *)
Definition lodes_tie : list wide_row :=
  [ mkWide "48439100100" (Some "Fairmount") (fun _ => 0);
    mkWide "48439100200" (Some "None")
      (fun s => if String.eqb s "CNS07" then 40
                else if String.eqb s "CNS05" then 40
                else if String.eqb s "CNS04" then 10 else 0) ].

(** Year probes: 2020 to 2022 answer 200, 2023 answers 404, later years
    fail to connect. *)
Definition probe (y : Z) : option Z :=
  if y <=? 2022 then Some 200 else if y =? 2023 then Some 404 else None.

End Sample.

(* ================================================================== *)
(** * The draw protocol of the synthesis pass, in the words of the spec *)

Section DrawProtocol.
Context {S : Shapely} {R : PyRandom coord}.

(** One target dot of row [r] on polygon [g], from generator state [st]: at
    most 20 draws from the bounding rectangle; the first draw inside the
    polygon is accepted and becomes the dot, the generator having made
    exactly the draws up to it; if all 20 draws fall outside, there is no
    dot and the generator has made exactly 20 draws. *)
Inductive slot (g : geom) (r : long_row) : rng -> option dot -> rng -> Prop :=
| slot_hit (st : rng) (j : nat) :
    (j < 20)%nat ->
    (forall i, (i < j)%nat -> contains g (nth_draw i g st) = false) ->
    contains g (nth_draw j g st) = true ->
    slot g r st (Some (dot_of r (nth_draw j g st)))
         (after_draws (Datatypes.S j) g st)
| slot_skip (st : rng) :
    (forall i, (i < 20)%nat -> contains g (nth_draw i g st) = false) ->
    slot g r st None (after_draws 20 g st).

(** [count] target dots in a row, each starting in the state the previous
    one left; a skipped dot leaves no trace in the output. *)
Inductive slots (g : geom) (r : long_row) : nat -> rng -> list dot -> rng -> Prop :=
| slots_done (st : rng) : slots g r 0 st [] st
| slots_next (count : nat) (st st1 st2 : rng) (o : option dot) (ds : list dot) :
    slot g r st o st1 ->
    slots g r count st1 ds st2 ->
    slots g r (Datatypes.S count) st
          (match o with Some d => d :: ds | None => ds end) st2.

(** The rows of the long form in order, from generator state to generator
    state: a row without a target dot draws nothing; a row with a positive
    job count places [min(floor(jobs / 50), 250)] target dots on the one
    polygon its tract identifier labels. *)
Inductive pass (tracts : list labelled)
  : list long_row -> rng -> list dot -> rng -> Prop :=
| pass_done (st : rng) : pass tracts [] st [] st
| pass_skip (r : long_row) (l : list long_row) (st st' : rng) (ds : list dot) :
    dot_count (jobs r) <= 0 ->
    pass tracts l st ds st' ->
    pass tracts (r :: l) st ds st'
| pass_row (r : long_row) (l : list long_row) (t : labelled)
           (st st1 st' : rng) (ds1 ds : list dot) :
    0 < jobs r ->
    filter (fun t => String.eqb (GEOID (l_tract t)) (lr_geoid r)) tracts = [t] ->
    slots (t_geometry (l_tract t)) r (Z.to_nat (dot_count (jobs r))) st ds1 st1 ->
    pass tracts l st1 ds st' ->
    pass tracts (r :: l) st (ds1 ++ ds)%list st'.

End DrawProtocol.

(** A tract without interior grid points and a tract with one, each with
    retail jobs: one target dot for the first, two for the second. *)
Module Retry.

Definition sliver : @tract Toy.boxes :=
  @mkTract Toy.boxes "48439100300" "439" (0, 0, 1, 1).
Definition small : @tract Toy.boxes :=
  @mkTract Toy.boxes "48439100400" "439" (0, 0, 2, 2).

Definition tracts : list (@labelled Toy.boxes) :=
  [ @mkLabelled Toy.boxes sliver (Some "None");
    @mkLabelled Toy.boxes small (Some "None") ].

Definition long_df : list long_row :=
  [ mkLong "48439100300" (Some "None") "CNS07" 50 (Some "Retail_Trade");
    mkLong "48439100400" (Some "None") "CNS07" 100 (Some "Retail_Trade") ].

End Retry.

(* ================================================================== *)
(** * Properties of the Indicator Deriver *)

Lemma Qred_inject_Z (z : Z) : Qred (inject_Z z) = inject_Z z.
Proof.
  unfold Qred, inject_Z.
  pose proof (Z.ggcd_gcd z 1) as Hg.
  pose proof (Z.ggcd_correct_divisors z 1) as Hd.
  destruct (Z.ggcd z 1) as [g [aa bb]]; simpl in *.
  rewrite Z.gcd_1_r in Hg; subst g.
  destruct Hd as [Ha Hb].
  rewrite Z.mul_1_l in Ha, Hb.
  subst aa bb. reflexivity.
Qed.

Lemma fadd_counts (a b : Z) :
  fadd (Fin (inject_Z a)) (Fin (inject_Z b)) = Fin (inject_Z (a + b)).
Proof.
  unfold fadd. f_equal.
  rewrite <- (Qred_inject_Z (a + b)).
  apply Qred_complete.
  unfold Qeq, Qplus, inject_Z; simpl. lia.
Qed.

Lemma sum_skipna_counts_from (m : string -> option Z) (cols : list string) (a : Z) :
  fold_left (fun acc x => if isna x then acc else fadd acc x)
            (map (fun c => cell_of (m c)) cols) (Fin (inject_Z a))
  = Fin (inject_Z (a + present_total m cols)).
Proof.
  revert a. induction cols as [|c cols IH]; intro a;
    cbn [map fold_left present_total fold_right].
  - now rewrite Z.add_0_r.
  - fold (present_total m cols).
    destruct (m c) as [n|]; cbn [cell_of isna].
    + rewrite fadd_counts, IH. f_equal. f_equal. lia.
    + rewrite IH. f_equal.
Qed.

Lemma sum_skipna_counts (m : string -> option Z) (cols : list string) :
  sum_skipna (map (fun c => cell_of (m c)) cols)
  = Fin (inject_Z (present_total m cols)).
Proof.
  unfold sum_skipna.
  change (Fin (0 # 1)) with (Fin (inject_Z 0)).
  now rewrite sum_skipna_counts_from.
Qed.

Lemma select_set_other (col : string) (v : fval) (r : row) (cols : list string) :
  existsb (String.eqb col) cols = false ->
  select cols (set col v r) = select cols r.
Proof.
  unfold select. induction cols as [|c cols IH]; simpl; intro H; [reflexivity|].
  apply orb_false_iff in H. destruct H as [Hc Hr].
  rewrite IH by assumption. f_equal.
  unfold set. rewrite String.eqb_sym, Hc. reflexivity.
Qed.

Lemma select_counts (r : row) (m : string -> option Z) (cols : list string) :
  (forall c, In c cols -> r c = cell_of (m c)) ->
  select cols r = map (fun c => cell_of (m c)) cols.
Proof.
  intro H. unfold select. apply map_ext_in. exact H.
Qed.

Lemma band_under18 (r : row) :
  compute_age_bands r "age_under18" = sum_skipna (select under18_cols r).
Proof. reflexivity. Qed.

Lemma band_18_64 (r : row) :
  compute_age_bands r "age_18_64"
  = sum_skipna (select age_18_64_cols
                  (set "age_under18" (sum_skipna (select under18_cols r)) r)).
Proof. reflexivity. Qed.

Lemma band_65_plus (r : row) :
  compute_age_bands r "age_65_plus"
  = sum_skipna
      (select age_65_plus_cols
         (set "age_18_64"
            (sum_skipna (select age_18_64_cols
                           (set "age_under18" (sum_skipna (select under18_cols r)) r)))
            (set "age_under18" (sum_skipna (select under18_cols r)) r))).
Proof. reflexivity. Qed.

(** A cell an addition can produce, or the zero the sum starts from: its
    finite value is in lowest terms. *)
Lemma fadd_zero_r_reduced (a : Q) : Qred a = a -> fadd (Fin a) (Fin (0 # 1)) = Fin a.
Proof.
  intro Ha. unfold fadd. f_equal. rewrite <- Ha at 2.
  apply Qred_complete. apply Qplus_0_r.
Qed.

Lemma fadd_reduced (x y : fval) (q : Q) : fadd x y = Fin q -> Qred q = q.
Proof.
  destruct x as [a| | |], y as [b| | |]; unfold fadd; intro E; try discriminate.
  assert (Eq : q = Qred (a + b)%Q) by congruence.
  rewrite Eq. apply Qred_complete. apply Qred_correct.
Qed.

Lemma sum_skipna_plain_from (l : list fval) (acc : fval) :
  (forall q, acc = Fin q -> Qred q = q) ->
  fold_left (fun acc x => if isna x then acc else fadd acc x) l acc
  = fold_left fadd (map fillna0 l) acc.
Proof.
  revert acc. induction l as [|x t IH]; intros acc Hacc; cbn [map fold_left];
    [reflexivity|].
  destruct x as [q| | |]; cbn [isna fillna0];
    try (apply IH; intros q' E; now apply fadd_reduced in E).
  assert (E0 : fadd acc (Fin (0 # 1)) = acc).
  { destruct acc as [a| | |]; try reflexivity.
    apply fadd_zero_r_reduced. now apply Hacc. }
  rewrite E0. now apply IH.
Qed.

Lemma sum_skipna_plain (l : list fval) : sum_skipna l = plain_sum l.
Proof.
  unfold sum_skipna, plain_sum. apply sum_skipna_plain_from.
  intros q E. injection E as <-. reflexivity.
Qed.

(** C2, as the code has it: the three bands add up fixed, pairwise disjoint
    column lists, and on every row each band is the sum of its columns with
    a missing input counted as zero.  On a row whose inputs of the band are
    integer counts or missing, the band is the total of the counts that are
    present, and is never missing itself. *)
Theorem age_bands_add_present_counts (r : row) (band : string) (cols : list string) :
  In (band, cols) age_bands ->
  NoDup (under18_cols ++ age_18_64_cols ++ age_65_plus_cols)
  /\ compute_age_bands r band = plain_sum (select cols r)
  /\ forall m : string -> option Z,
       (forall c, In c cols -> r c = cell_of (m c)) ->
       compute_age_bands r band = Fin (inject_Z (present_total m cols))
       /\ compute_age_bands r band <> NaN.
Proof.
  intro Hin. split.
  - replace (under18_cols ++ age_18_64_cols ++ age_65_plus_cols)%list
      with (nodup string_dec (under18_cols ++ age_18_64_cols ++ age_65_plus_cols)%list)
      by (vm_compute; reflexivity).
    apply NoDup_nodup.
  - assert (Hband : compute_age_bands r band = sum_skipna (select cols r)).
    { destruct Hin as [E | [E | [E | []]]]; injection E as <- <-.
      - apply band_under18.
      - now rewrite band_18_64, select_set_other by reflexivity.
      - now rewrite band_65_plus, !select_set_other by reflexivity. }
    split; [now rewrite Hband, sum_skipna_plain|].
    intros m Hm.
    assert (Hsum : compute_age_bands r band = Fin (inject_Z (present_total m cols))).
    { rewrite Hband, (select_counts r m cols Hm). apply sum_skipna_counts. }
    split; [exact Hsum|]. rewrite Hsum. discriminate.
Qed.

(** The row of the witness: a count of 3 in every column. *)
Lemma age_bands_add_present_counts_witness :
  compute_age_bands (Toy.const_row (Fin (inject_Z 3))) "age_under18"
  = Fin (inject_Z 24).
Proof.
  apply (proj2 (proj2 (age_bands_add_present_counts
                         (Toy.const_row (Fin (inject_Z 3)))
                         "age_under18" under18_cols (or_introl eq_refl)))
               (fun _ => Some 3)
               (fun c _ => eq_refl)).
Defined.

(** C2, as stated, fails: with [male_under5] missing and a count of 1 in the
    seven other columns of the band, the under-18 band is 7, not missing. *)
Lemma age_band_with_missing_input_is_not_missing :
  let r : row := fun c => if String.eqb c "male_under5" then NaN else Fin (1 # 1) in
  In "male_under5" under18_cols
  /\ r "male_under5" = NaN
  /\ compute_age_bands r "age_under18" = Fin (7 # 1)
  /\ compute_age_bands r "age_under18" <> NaN.
Proof.
  cbv zeta. split; [simpl; tauto|]. split; [reflexivity|].
  split; [vm_compute; reflexivity | vm_compute; discriminate].
Qed.

(* ------------------------------------------------------------------ *)
(** ** Rates *)

Lemma rate_is_quotient (r : row) (name : string) (num den : row -> fval) :
  In (name, (num, den)) rate_table ->
  compute_rates r name = fdiv (num r) (den r).
Proof.
  intro Hin.
  destruct Hin as [E | [E | [E | [E | [E | []]]]]];
    injection E as <- <- <-; reflexivity.
Qed.

Lemma fdiv_nan_l (y : fval) : fdiv NaN y = NaN.
Proof. reflexivity. Qed.

Lemma fdiv_nan_r (x : fval) : fdiv x NaN = NaN.
Proof. destruct x; reflexivity. Qed.

Lemma qzero_iff (q : Q) : qzero q = true <-> (q == 0)%Q.
Proof. unfold qzero. apply Qeq_bool_iff. Qed.

Lemma fdiv_zero_divisor (a b : Q) :
  (b == 0)%Q ->
  ((a == 0)%Q -> fdiv (Fin a) (Fin b) = NaN)
  /\ ((0 < a)%Q -> fdiv (Fin a) (Fin b) = PInf)
  /\ ((a < 0)%Q -> fdiv (Fin a) (Fin b) = NInf).
Proof.
  intro Hb. apply qzero_iff in Hb. unfold fdiv. rewrite Hb.
  repeat split; intro Ha.
  - apply qzero_iff in Ha. now rewrite Ha.
  - destruct (qzero a) eqn:Hz.
    + apply qzero_iff in Hz. rewrite Hz in Ha. discriminate.
    + unfold qpos. unfold Qlt in Ha. simpl in Ha.
      rewrite Z.mul_1_r in Ha.
      apply Z.ltb_lt in Ha. now rewrite Ha.
  - destruct (qzero a) eqn:Hz.
    + apply qzero_iff in Hz. rewrite Hz in Ha. discriminate.
    + unfold qpos. unfold Qlt in Ha. simpl in Ha.
      rewrite Z.mul_1_r in Ha.
      destruct (0 <? Qnum a) eqn:Hp; [apply Z.ltb_lt in Hp; lia | reflexivity].
Qed.

Lemma fdiv_nonzero_divisor (a b : Q) :
  ~ (b == 0)%Q -> fdiv (Fin a) (Fin b) = Fin (Qred (a / b)%Q).
Proof.
  intro Hb. unfold fdiv.
  destruct (qzero b) eqn:Hz; [apply qzero_iff in Hz; contradiction | reflexivity].
Qed.

(** C9, as the code has it: every rate is the quotient of its dividend by
    its divisor, computed without raising.  A missing dividend or divisor
    gives NaN; a zero divisor gives NaN under a zero dividend and a signed
    infinity, which is not NaN, under a non-zero one; a non-zero divisor
    gives the exact quotient.  With [poverty_total = 0] and
    [poverty_pop = 0] the poverty rate is NaN, and with [owner_occ = 40] and
    [renter_occ = 60] the owner and renter rates are 2/5 and 3/5. *)
Theorem rates_on_zero_or_missing_divisor
  (r : row) (name : string) (num den : row -> fval) :
  In (name, (num, den)) rate_table ->
  compute_rates r name = fdiv (num r) (den r)
  /\ (num r = NaN \/ den r = NaN -> compute_rates r name = NaN)
  /\ (forall a b, num r = Fin a -> den r = Fin b -> (b == 0)%Q ->
        ((a == 0)%Q -> compute_rates r name = NaN)
        /\ ((0 < a)%Q -> compute_rates r name = PInf)
        /\ ((a < 0)%Q -> compute_rates r name = NInf))
  /\ (forall a b, num r = Fin a -> den r = Fin b -> ~ (b == 0)%Q ->
        compute_rates r name = Fin (Qred (a / b)%Q))
  /\ (r "poverty_total" = Fin (0 # 1) -> r "poverty_pop" = Fin (0 # 1) ->
        compute_rates r "poverty_rate" = NaN)
  /\ (r "owner_occ" = Fin (40 # 1) -> r "renter_occ" = Fin (60 # 1) ->
        compute_rates r "owner_rate" = Fin (2 # 5)
        /\ compute_rates r "renter_rate" = Fin (3 # 5)).
Proof.
  intro Hin.
  pose proof (rate_is_quotient r name num den Hin) as Hq.
  split; [exact Hq|]. rewrite Hq.
  split; [| split; [| split; [| split]]].
  - intros [E | E]; rewrite E; [apply fdiv_nan_l | apply fdiv_nan_r].
  - intros a b Ea Eb Hb. rewrite Ea, Eb. now apply fdiv_zero_divisor.
  - intros a b Ea Eb Hb. rewrite Ea, Eb. now apply fdiv_nonzero_divisor.
  - intros Et Ep.
    rewrite (rate_is_quotient r "poverty_rate" _ _ (or_introl eq_refl)).
    rewrite Et, Ep. reflexivity.
  - intros Eo Er. split.
    + rewrite (rate_is_quotient r "owner_rate" _ _ (or_intror (or_introl eq_refl))).
      rewrite Eo, Er. reflexivity.
    + rewrite (rate_is_quotient r "renter_rate" _ _
                 (or_intror (or_intror (or_introl eq_refl)))).
      rewrite Eo, Er. reflexivity.
Qed.

(** The rates of a row with 40 owner-occupied and 60 renter-occupied units
    and zeros elsewhere. *)
Lemma rates_on_zero_or_missing_divisor_witness :
  let r : row :=
    fun c => if String.eqb c "owner_occ" then Fin (40 # 1)
             else if String.eqb c "renter_occ" then Fin (60 # 1)
             else Fin (0 # 1) in
  compute_rates r "poverty_rate" = NaN
  /\ compute_rates r "owner_rate" = Fin (2 # 5)
  /\ compute_rates r "renter_rate" = Fin (3 # 5).
Proof.
  intro r.
  pose proof (rates_on_zero_or_missing_divisor r "poverty_rate"
                (fun r => r "poverty_pop") (fun r => r "poverty_total")
                (or_introl eq_refl)) as (_ & _ & _ & _ & Hp & Ho).
  split; [exact (Hp eq_refl eq_refl) | exact (Ho eq_refl eq_refl)].
Defined.

(** C9, as stated, fails: with [poverty_pop = 5] over [poverty_total = 0] the
    divisor is zero and the poverty rate is plus infinity, not NaN. *)
Lemma rate_on_zero_divisor_can_be_infinite :
  let r : row := fun c => if String.eqb c "poverty_pop" then Fin (5 # 1)
                          else Fin (0 # 1) in
  r "poverty_total" = Fin (0 # 1)
  /\ compute_rates r "poverty_rate" = PInf
  /\ compute_rates r "poverty_rate" <> NaN.
Proof.
  cbv zeta. split; [reflexivity|].
  split; [vm_compute; reflexivity | vm_compute; discriminate].
Qed.

(* ================================================================== *)
(** * Properties of the Spatial Attributor *)

Section SpatialFacts.
Context {S : Shapely} {V : PyValue}.

Lemma pick_name_column_in (columns : list (string * bool)) (col : string) :
  pick_name_column columns = Some col -> In col (map fst columns).
Proof.
  unfold pick_name_column.
  destruct (find _ candidates) as [c|] eqn:Hc.
  - intro E; injection E as <-.
    apply find_some in Hc. destruct Hc as [_ Hc].
    apply existsb_exists in Hc. destruct Hc as (x & Hx & Hcx).
    apply String.eqb_eq in Hcx. now subst x.
  - destruct (find _ columns) as [c|] eqn:Ho.
    + intro E; injection E as <-.
      apply find_some in Ho. destruct Ho as [Ho _].
      now apply in_map.
    + destruct columns as [|c t]; [discriminate|].
      intro E; injection E as <-. now left.
Qed.

Lemma pick_name_column_some (columns : list (string * bool)) :
  columns <> [] -> exists col, pick_name_column columns = Some col.
Proof.
  intro Hne. unfold pick_name_column.
  destruct (find _ candidates) as [c|]; [eauto|].
  destruct (find _ columns) as [c|]; [eauto|].
  destruct columns as [|c t]; [contradiction | eauto].
Qed.

Lemma sjoin_rows (left_df : frame tract) (right_df : frame (string * geom)) :
  rows (sjoin left_df right_df) = flat_map (matches_of right_df) (rows left_df).
Proof. reflexivity. Qed.

Lemma matches_of_nonempty (right_df : frame (string * geom)) (t : tract) :
  exists j, In j (matches_of right_df t) /\ l_tract j = t.
Proof.
  unfold matches_of.
  destruct (filter _ (rows right_df)) as [|b ms].
  - eexists; split; [left; reflexivity | reflexivity].
  - eexists; split; [left; reflexivity | reflexivity].
Qed.

Lemma matches_of_label (right_df : frame (string * geom)) (t : tract) (j : labelled) :
  In j (matches_of right_df t) ->
  l_tract j = t
  /\ (l_redev_name j = None
      \/ exists b, In b (rows right_df)
                   /\ intersects (t_geometry t) (snd b) = true
                   /\ l_redev_name j = Some (fst b)).
Proof.
  unfold matches_of.
  destruct (filter _ (rows right_df)) as [|b ms] eqn:Hf.
  - intros [<- | []]. split; [reflexivity | now left].
  - intro Hj. apply in_map_iff in Hj. destruct Hj as (b' & <- & Hb').
    split; [reflexivity|]. right. exists b'.
    rewrite <- Hf in Hb'. apply filter_In in Hb'. destruct Hb' as [Hin Hi].
    repeat split; assumption.
Qed.

(** C8: on a boundary table with at least one column the attribution
    returns a frame in which every input tract is kept, every row is an
    input tract, and every label is present (never null) and is either the
    text of a value of the resolved name column, as [astype(str)] renders
    it, or the string "None". *)
Theorem every_tract_kept_and_labelled (tracts : frame tract) (redev : boundary_table) :
  bt_columns redev <> [] ->
  exists name_col out,
    pick_name_column (bt_columns redev) = Some name_col
    /\ In name_col (map fst (bt_columns redev))
    /\ add_redev_to_tracts tracts redev = Some out
    /\ (forall t, In t (rows tracts) ->
          exists j, In j (rows out) /\ l_tract j = t)
    /\ (forall j, In j (rows out) ->
          In (l_tract j) (rows tracts)
          /\ l_redev_name j <> None
          /\ exists s, l_redev_name j = Some s
               /\ (s = "None"
                   \/ In s (map (fun b => astype_str (b_cells b name_col))
                                (rows (bt_frame redev))))).
Proof.
  intro Hne.
  destruct (pick_name_column_some _ Hne) as [name_col Hpick].
  exists name_col.
  unfold add_redev_to_tracts, sjoin_operands. rewrite Hpick.
  eexists. split; [reflexivity|].
  split; [now apply pick_name_column_in|].
  split; [reflexivity|].
  cbn [rows crs]. rewrite sjoin_rows. cbn [rows].
  split.
  - intros t Ht.
    destruct (matches_of_nonempty
                (mkFrame (crs (bt_frame redev))
                   (map (fun b => (astype_str (b_cells b name_col), b_geometry b))
                        (rows (bt_frame redev)))) t) as (j & Hj & Hjt).
    exists (mkLabelled (l_tract j) (fillna_label (l_redev_name j))).
    split; [| exact Hjt].
    apply in_map_iff. exists j. split; [reflexivity|].
    apply in_flat_map. exists t. split; assumption.
  - intros j Hj.
    apply in_map_iff in Hj. destruct Hj as (j0 & <- & Hj0).
    apply in_flat_map in Hj0. destruct Hj0 as (t & Ht & Hj0).
    apply matches_of_label in Hj0. destruct Hj0 as [Ejt Hlab].
    cbn [l_tract l_redev_name]. rewrite Ejt.
    split; [exact Ht|].
    destruct Hlab as [E | (b & Hb & _ & E)]; rewrite E; cbn [fillna_label].
    + split; [discriminate|]. exists "None". split; [reflexivity | now left].
    + split; [discriminate|]. exists (fst b). split; [reflexivity|]. right.
      cbn [rows] in Hb. apply in_map_iff in Hb. destruct Hb as (b0 & <- & Hb0).
      cbn [fst]. apply in_map_iff. exists b0. split; [reflexivity | assumption].
Qed.

(** C3, as the code has it: [add_redev_to_tracts] hands both frames to the
    spatial join as it received them, without reprojecting either, so the
    two agree on a CRS at the join exactly when its inputs already do.  In
    the pipeline they always do: the download step writes both the tract
    file and the boundary file in EPSG:4326, whatever CRS the archives
    came in. *)
Theorem join_frames_are_not_reprojected
  (tracts : frame tract) (redev : boundary_table)
  (left_df : frame tract) (right_df : frame (string * geom)) :
  sjoin_operands tracts redev = Some (left_df, right_df) ->
  left_df = tracts
  /\ crs right_df = crs (bt_frame redev)
  /\ map snd (rows right_df) = map b_geometry (rows (bt_frame redev))
  /\ (crs left_df = crs right_df <-> crs tracts = crs (bt_frame redev))
  /\ (forall counties raw_tracts raw_redev,
        tracts = download_tracts counties raw_tracts ->
        redev = read_redev_boundaries raw_redev ->
        crs left_df = "EPSG:4326" /\ crs right_df = "EPSG:4326").
Proof.
  unfold sjoin_operands.
  destruct (pick_name_column (bt_columns redev)) as [name_col|]; [|discriminate].
  intro E. injection E as <- <-. cbn [crs rows].
  split; [reflexivity|]. split; [reflexivity|].
  split; [now rewrite map_map|]. split; [tauto|].
  intros counties raw_tracts raw_redev -> ->. split; reflexivity.
Qed.

End SpatialFacts.

(** The toy table resolves its name column to [NAME]; the second tract
    meets no boundary and keeps its row under the label "None". *)
Lemma every_tract_kept_and_labelled_witness :
  exists out,
    add_redev_to_tracts Toy.tracts Toy.redev = Some out
    /\ map l_redev_name (rows out)
       = [Some "Near Southside"; Some "Fairmount"; Some "None"].
Proof.
  destruct (every_tract_kept_and_labelled Toy.tracts Toy.redev
              ltac:(discriminate)) as (name_col & out & _ & _ & Hout & _).
  exists out. split; [exact Hout|].
  vm_compute in Hout. injection Hout as <-. reflexivity.
Defined.

(** Frames as the download step writes them meet in EPSG:4326. *)
Lemma join_frames_are_not_reprojected_witness :
  exists left_df right_df,
    sjoin_operands (download_tracts ["439"] Toy.tracts)
                   (read_redev_boundaries Toy.redev) = Some (left_df, right_df)
    /\ crs left_df = "EPSG:4326" /\ crs right_df = "EPSG:4326".
Proof.
  eexists. eexists. split; [vm_compute; reflexivity|].
  eapply (join_frames_are_not_reprojected
            (download_tracts ["439"] Toy.tracts)
            (read_redev_boundaries Toy.redev)).
  - vm_compute; reflexivity.
  - reflexivity.
  - reflexivity.
Defined.

(** C3, as stated, fails: tracts in EPSG:4269 and boundaries in EPSG:2276
    reach the spatial join in their own reference systems, the boundary
    geometries unchanged. *)
Lemma join_frames_can_disagree_on_crs :
  exists left_df right_df,
    sjoin_operands Toy.tracts Toy.redev = Some (left_df, right_df)
    /\ crs Toy.tracts <> crs (bt_frame Toy.redev)
    /\ crs left_df = "EPSG:4269"
    /\ crs right_df = "EPSG:2276"
    /\ crs left_df <> crs right_df
    /\ map snd (rows right_df) = map b_geometry (rows (bt_frame Toy.redev)).
Proof.
  eexists. eexists. split; [vm_compute; reflexivity|].
  cbn [crs rows Toy.tracts Toy.redev bt_frame].
  repeat split; try reflexivity; discriminate.
Qed.

(* ================================================================== *)
(** * Properties of the Panel Builder *)

(** ** The order on ([geoid], [year]) and the sort *)

Lemma compare_refl (a : string) : String.compare a a = Eq.
Proof. now apply (proj2 (String_as_OT.cmp_eq a a)). Qed.

Lemma compare_lt_trans (a b c : string) :
  String.compare a b = Lt -> String.compare b c = Lt -> String.compare a c = Lt.
Proof.
  intros H1 H2.
  apply String_as_OT.cmp_lt. apply String_as_OT.cmp_lt in H1, H2.
  eapply String_as_OT.lt_trans; eassumption.
Qed.

Lemma key_leb_total (a b : panel_row) : key_leb a b = false -> key_leb b a = true.
Proof.
  unfold key_leb. rewrite (String.compare_antisym (geoid a) (geoid b)).
  destruct (String.compare (geoid b) (geoid a)) eqn:E; simpl; intro H.
  - apply Z.leb_gt in H. apply Z.leb_le. lia.
  - reflexivity.
  - discriminate.
Qed.

Lemma key_leb_trans (a b c : panel_row) :
  key_leb a b = true -> key_leb b c = true -> key_leb a c = true.
Proof.
  unfold key_leb.
  destruct (String.compare (geoid a) (geoid b)) eqn:Eab; try discriminate;
    destruct (String.compare (geoid b) (geoid c)) eqn:Ebc; try discriminate;
    intros H1 H2.
  - apply String.compare_eq_iff in Eab, Ebc.
    rewrite Eab, Ebc.
    rewrite compare_refl.
    apply Z.leb_le. apply Z.leb_le in H1, H2. lia.
  - apply String.compare_eq_iff in Eab. now rewrite Eab, Ebc.
  - apply String.compare_eq_iff in Ebc. now rewrite <- Ebc, Eab.
  - now rewrite (compare_lt_trans _ _ _ Eab Ebc).
Qed.

Lemma key_leb_same_geoid (a b : panel_row) :
  geoid a = geoid b -> key_leb a b = true -> year a <= year b.
Proof.
  unfold key_leb. intros E H.
  rewrite E, compare_refl in H.
  now apply Z.leb_le.
Qed.

Lemma insert_row_perm (x : panel_row) (l : list panel_row) :
  Permutation (insert_row x l) (x :: l).
Proof.
  induction l as [|y t IH]; simpl; [reflexivity|].
  destruct (key_leb x y); [reflexivity|].
  rewrite IH. apply perm_swap.
Qed.

Lemma sort_values_perm (l : list panel_row) : Permutation (sort_values l) l.
Proof.
  induction l as [|x t IH]; simpl; [reflexivity|].
  rewrite insert_row_perm. now constructor.
Qed.

Lemma insert_row_sorted (x : panel_row) (l : list panel_row) :
  StronglySorted key_le l -> StronglySorted key_le (insert_row x l).
Proof.
  induction l as [|y t IH]; simpl; intro Hs.
  - constructor; constructor.
  - inversion Hs as [|? ? Ht Hy]; subst.
    destruct (key_leb x y) eqn:E.
    + constructor; [assumption|].
      constructor; [exact E|].
      eapply Forall_impl; [|exact Hy].
      intros z Hz. eapply key_leb_trans; eassumption.
    + constructor; [now apply IH|].
      eapply Permutation_Forall; [symmetry; apply insert_row_perm|].
      constructor; [now apply key_leb_total | assumption].
Qed.

Lemma sort_values_sorted (l : list panel_row) : StronglySorted key_le (sort_values l).
Proof.
  induction l as [|x t IH]; simpl; [constructor | now apply insert_row_sorted].
Qed.

Lemma sorted_app_le {A : Type} (R : A -> A -> Prop) (l1 l2 : list A) :
  StronglySorted R (l1 ++ l2) ->
  forall x y, In x l1 -> In y l2 -> R x y.
Proof.
  induction l1 as [|a l1 IH]; simpl; intros Hs x y Hx Hy; [contradiction|].
  inversion Hs as [|? ? Ht Ha]; subst.
  destruct Hx as [<- | Hx].
  - rewrite Forall_forall in Ha. apply Ha. apply in_or_app. now right.
  - now apply IH.
Qed.

(** ** Uniqueness of the key *)

Lemma count_rows_nodup (l : list panel_row) (g : string) (y : Z) :
  NoDup (map key_of l) -> (count_rows g y l <= 1)%nat.
Proof.
  unfold count_rows.
  induction l as [|r t IH]; simpl; intro Hnd; [lia|].
  inversion Hnd as [|? ? Hnotin Ht]; subst.
  destruct (String.eqb (geoid r) g && (year r =? y)) eqn:E; [|now apply IH].
  apply andb_true_iff in E. destruct E as [Eg Ey].
  apply String.eqb_eq in Eg. apply Z.eqb_eq in Ey.
  assert (Hnone : filter (fun r0 => String.eqb (geoid r0) g && (year r0 =? y)) t = []).
  { destruct (filter _ t) as [|r' f'] eqn:Hf; [reflexivity|].
    exfalso. apply Hnotin.
    assert (Hin : In r' (filter (fun r0 => String.eqb (geoid r0) g && (year r0 =? y)) t))
      by (rewrite Hf; now left).
    apply filter_In in Hin. destruct Hin as [Hin E'].
    apply andb_true_iff in E'. destruct E' as [Eg' Ey'].
    apply String.eqb_eq in Eg'. apply Z.eqb_eq in Ey'.
    apply in_map_iff. exists r'. split; [|assumption].
    unfold key_of. congruence. }
  rewrite Hnone. simpl. lia.
Qed.

Lemma flat_map_singletons {A B K : Type} (f : A -> list B) (ka : A -> K) (kb : B -> K)
      (l : list A) :
  (forall a, In a l -> exists b, f a = [b] /\ kb b = ka a) ->
  map kb (flat_map f l) = map ka l.
Proof.
  induction l as [|a t IH]; simpl; intro H; [reflexivity|].
  destruct (H a (or_introl eq_refl)) as (b & Hf & Hk).
  rewrite map_app, Hf, IH by (intros; apply H; now right).
  simpl. now rewrite Hk.
Qed.

Lemma filter_key_nodup {A : Type} (key : A -> string) (l : list A) (g : string) :
  NoDup (map key l) ->
  (List.length (filter (fun x => String.eqb (key x) g) l) <= 1)%nat.
Proof.
  induction l as [|a t IH]; simpl; intro Hnd; [lia|].
  inversion Hnd as [|? ? Hnotin Ht]; subst.
  destruct (String.eqb (key a) g) eqn:E; [|now apply IH].
  apply String.eqb_eq in E.
  destruct (filter (fun x => String.eqb (key x) g) t) as [|b f'] eqn:Hf;
    [simpl; lia|].
  exfalso. apply Hnotin.
  assert (Hin : In b (filter (fun x => String.eqb (key x) g) t))
    by (rewrite Hf; now left).
  apply filter_In in Hin. destruct Hin as [Hin Eb].
  apply String.eqb_eq in Eb.
  apply in_map_iff. exists b. split; [congruence | assumption].
Qed.

Lemma merge_left_keys (acs : list panel_row) (labels : list (string * option string)) :
  NoDup (map fst labels) ->
  map key_of (merge_left acs labels) = map key_of acs.
Proof.
  intro Hnd. unfold merge_left.
  apply flat_map_singletons. intros a _.
  pose proof (filter_key_nodup fst labels (geoid a) Hnd) as Hlen.
  destruct (filter (fun l => String.eqb (fst l) (geoid a)) labels) as [|l1 [|l2 ms]].
  - eexists; split; reflexivity.
  - eexists; split; reflexivity.
  - simpl in Hlen. lia.
Qed.

Lemma filter_map_comm {A B : Type} (f : A -> B) (p : B -> bool) (l : list A) :
  filter p (map f l) = map f (filter (fun a => p (f a)) l).
Proof.
  induction l as [|a t IH]; simpl; [reflexivity|].
  destruct (p (f a)); simpl; now rewrite IH.
Qed.

Section PanelFacts.
Context {S : Shapely} {V : PyValue}.

Lemma matches_of_single (right_df : frame (string * geom)) (t : tract) :
  (List.length (filter (fun b => intersects (t_geometry t) (snd b)) (rows right_df))
   <= 1)%nat ->
  exists j, matches_of right_df t = [j] /\ l_tract j = t.
Proof.
  unfold matches_of. intro Hlen.
  destruct (filter _ (rows right_df)) as [|b [|b' ms]].
  - eexists; split; reflexivity.
  - eexists; split; reflexivity.
  - simpl in Hlen. lia.
Qed.

(** The keys of the panel are those of the ACS table when no tract
    identifier is repeated among the labelled tracts. *)
Lemma panel_keys (acs : list acs_row) (tracts : frame tract)
      (redev : boundary_table) (P : panel) :
  prepare_acs_panel acs tracts redev = Some P ->
  NoDup (map GEOID (rows tracts)) ->
  (forall t, In t (rows tracts) ->
     (List.length (filter (fun b => intersects (t_geometry t) (b_geometry b))
                          (rows (bt_frame redev))) <= 1)%nat) ->
  Permutation (map key_of (p_rows P))
              (map (fun a => (a_state a ++ a_county a ++ a_tract a, a_year a)) acs).
Proof.
  unfold prepare_acs_panel, add_redev_to_tracts, sjoin_operands.
  destruct (pick_name_column (bt_columns redev)) as [name_col|]; [|discriminate].
  intros E Hnd Hone. injection E as <-. cbn [p_rows rows crs sjoin].
  rewrite (Permutation_map key_of (sort_values_perm _)).
  rewrite map_map. cbn [key_of geoid year].
  change (fun x : panel_row => (geoid x, year x)) with key_of.
  rewrite merge_left_keys.
  - rewrite map_map. reflexivity.
  - rewrite !map_map. cbn [fst l_tract].
    rewrite <- (map_map l_tract GEOID).
    rewrite (flat_map_singletons _ (fun t => t) l_tract).
    + rewrite map_id. exact Hnd.
    + intros t Ht. apply matches_of_single. cbn [rows].
      rewrite filter_map_comm, length_map. cbn [snd]. now apply Hone.
Qed.

(** C1, as the code has it: the panel has at most one row per tract
    identifier and year provided the ACS table has, no tract identifier
    is repeated in the tract file and no tract polygon intersects more
    than one redevelopment boundary. *)
Theorem panel_key_unique_for_single_labels
  (acs : list acs_row) (tracts : frame tract) (redev : boundary_table) (P : panel) :
  prepare_acs_panel acs tracts redev = Some P ->
  NoDup (map (fun a => (a_state a ++ a_county a ++ a_tract a, a_year a)) acs) ->
  NoDup (map GEOID (rows tracts)) ->
  (forall t, In t (rows tracts) ->
     (List.length (filter (fun b => intersects (t_geometry t) (b_geometry b))
                          (rows (bt_frame redev))) <= 1)%nat) ->
  forall g y, (count_rows g y (p_rows P) <= 1)%nat.
Proof.
  intros E Hacs Hnd Hone g y.
  apply count_rows_nodup.
  eapply Permutation_NoDup; [symmetry; eapply panel_keys; eassumption|].
  exact Hacs.
Qed.

End PanelFacts.

(** The toy panel of one tract that meets one boundary has one row per
    tract and year. *)
Lemma panel_key_unique_for_single_labels_witness :
  exists P,
    prepare_acs_panel [Toy.acs_a_2021; Toy.acs_b_2020; Toy.acs_a_2020]
                      Toy.tracts Toy.redev_single = Some P
    /\ (count_rows "48439100100" 2021 (p_rows P) <= 1)%nat.
Proof.
  eexists. split; [vm_compute; reflexivity|].
  eapply (panel_key_unique_for_single_labels
            [Toy.acs_a_2021; Toy.acs_b_2020; Toy.acs_a_2020]
            Toy.tracts Toy.redev_single).
  - vm_compute; reflexivity.
  - repeat (constructor; [simpl; intuition discriminate|]). constructor.
  - repeat (constructor; [simpl; intuition discriminate|]). constructor.
  - intros t [<- | [<- | []]]; vm_compute; lia.
Defined.

(** C1, as stated, fails: a tract whose polygon meets two boundaries is
    labelled twice, and the label join gives its single 2020 record two
    panel rows. *)
Lemma label_join_multiplies_panel_rows :
  exists P,
    prepare_acs_panel [Toy.acs_a_2020] Toy.tracts Toy.redev = Some P
    /\ map (fun r => (geoid r, year r, redev_name r)) (p_rows P)
       = [ ("48439100100", 2020, Some "Near Southside");
           ("48439100100", 2020, Some "Fairmount") ]
    /\ count_rows "48439100100" 2020 (p_rows P) = 2%nat
    /\ ~ (count_rows "48439100100" 2020 (p_rows P) <= 1)%nat.
Proof.
  eexists. split; [vm_compute; reflexivity|].
  split; [vm_compute; reflexivity|].
  split; [vm_compute; reflexivity|].
  vm_compute. intro H. lia.
Qed.

(* ------------------------------------------------------------------ *)
(** ** Deltas *)

Lemma prev_value_absent (k : string) (l : list (string * fval)) (d : option fval) :
  (forall x, In x l -> fst x <> k) -> prev_value k l d = d.
Proof.
  revert d. induction l as [|[k' v] t IH]; simpl; intros d H; [reflexivity|].
  rewrite IH by (intros; apply H; now right).
  destruct (String.eqb k k') eqn:E; [|reflexivity].
  apply String.eqb_eq in E. exfalso. apply (H (k', v)); [now left | now subst].
Qed.

Lemma prev_value_last (k : string) (a b : list (string * fval)) (v : fval)
      (d : option fval) :
  (forall x, In x b -> fst x <> k) ->
  prev_value k (a ++ (k, v) :: b)%list d = Some v.
Proof.
  revert d. induction a as [|[k' v'] a IH]; simpl; intros d H.
  - rewrite String.eqb_refl. now apply prev_value_absent.
  - now apply IH.
Qed.

Lemma prev_value_in (k : string) (l : list (string * fval)) (d : option fval)
      (v : fval) :
  prev_value k l d = Some v -> d = Some v \/ In (k, v) l.
Proof.
  revert d. induction l as [|[k' v'] t IH]; simpl; intros d H; [now left|].
  apply IH in H. destruct H as [H | H]; [|now right; right].
  destruct (String.eqb k k') eqn:E; [|now left].
  apply String.eqb_eq in E. injection H as <-. subst k'. right. now left.
Qed.

Lemma diff_scan_at (prev : string -> option fval) (l1 l2 : list (string * fval))
      (k : string) (v : fval) :
  nth_error (diff_scan prev (l1 ++ (k, v) :: l2)%list) (List.length l1)
  = Some match prev_value k l1 (prev k) with
         | None => NaN
         | Some p => fsub v p
         end.
Proof.
  revert prev. induction l1 as [|[k' v'] l1 IH]; intro prev; simpl.
  - reflexivity.
  - rewrite IH. reflexivity.
Qed.

Lemma groupby_diff_at (col : string) (l1 l2 : list panel_row) (r2 : panel_row) :
  nth_error (groupby_diff col (l1 ++ r2 :: l2)%list) (List.length l1)
  = Some match prev_value (geoid r2) (map (fun r => (geoid r, cells r col)) l1) None with
         | None => NaN
         | Some p => fsub (cells r2 col) p
         end.
Proof.
  unfold groupby_diff. rewrite map_app. cbn [map].
  rewrite <- (length_map (fun r => (geoid r, cells r col)) l1).
  apply diff_scan_at.
Qed.

Lemma nodup_keys_apart (l1 l2 : list panel_row) (r r2 : panel_row) :
  NoDup (map key_of (l1 ++ r2 :: l2)%list) ->
  In r (l1 ++ l2)%list -> key_of r <> key_of r2.
Proof.
  rewrite map_app. cbn [map]. intros Hnd Hin E.
  apply NoDup_remove_2 in Hnd. apply Hnd.
  rewrite <- map_app, <- E. now apply in_map.
Qed.

(** On a frame sorted by key without repeated keys: the delta of a row with
    no earlier year in its tract is NaN, and the delta of a row is its value
    minus the value of the row of the closest earlier year of its tract. *)
Lemma groupby_diff_sorted (col : string) (l : list panel_row) :
  StronglySorted key_le l ->
  NoDup (map key_of l) ->
  forall i r2, nth_error l i = Some r2 ->
    ((forall r, In r l -> geoid r = geoid r2 -> year r2 <= year r) ->
     nth_error (groupby_diff col l) i = Some NaN)
    /\ (forall r1, In r1 l -> geoid r1 = geoid r2 -> year r1 < year r2 ->
          (forall r, In r l -> geoid r = geoid r2 ->
                     year r <= year r1 \/ year r2 <= year r) ->
          nth_error (groupby_diff col l) i = Some (fsub (cells r2 col) (cells r1 col))).
Proof.
  intros Hs Hnd i r2 Hi.
  apply nth_error_split in Hi. destruct Hi as (l1 & l2 & -> & <-).
  rewrite groupby_diff_at.
  assert (Hbefore : forall r, In r l1 -> geoid r = geoid r2 -> year r < year r2).
  { intros r Hr Eg.
    assert (Hle : key_le r r2).
    { apply (sorted_app_le key_le l1 (r2 :: l2) Hs); [assumption | now left]. }
    apply key_leb_same_geoid in Hle; [|assumption].
    assert (Hne : key_of r <> key_of r2).
    { apply (nodup_keys_apart l1 l2); [assumption | apply in_or_app; now left]. }
    unfold key_of in Hne.
    destruct (Z.eq_dec (year r) (year r2)) as [Ey | Ey]; [|lia].
    exfalso. apply Hne. now rewrite Eg, Ey. }
  split.
  - intro Hfirst.
    rewrite prev_value_absent; [reflexivity|].
    intros x Hx Ek. apply in_map_iff in Hx. destruct Hx as (r & <- & Hr).
    cbn [fst] in Ek.
    pose proof (Hbefore r Hr Ek).
    assert (year r2 <= year r)
      by (apply Hfirst; [apply in_or_app; now left | assumption]).
    lia.
  - intros r1 Hr1 Eg1 Hlt Hnone.
    assert (Hin1 : In r1 l1).
    { apply in_app_or in Hr1. destruct Hr1 as [H | [H | H]].
      - assumption.
      - subst r1. lia.
      - exfalso.
        assert (Hle : key_le r2 r1).
        { assert (Hs' : StronglySorted key_le ((l1 ++ [r2]) ++ l2)%list)
            by (now rewrite <- app_assoc).
          apply (sorted_app_le key_le (l1 ++ [r2])%list l2 Hs'); [|assumption].
          apply in_or_app. right. now left. }
        apply key_leb_same_geoid in Hle; [lia | now symmetry]. }
    apply in_split in Hin1. destruct Hin1 as (a & b & ->).
    rewrite map_app. cbn [map].
    rewrite <- Eg1.
    rewrite prev_value_last; [reflexivity|].
    intros x Hx Ek. apply in_map_iff in Hx. destruct Hx as (r & <- & Hr).
    cbn [fst] in Ek. rewrite Eg1 in Ek.
    assert (Hrl1 : In r (a ++ r1 :: b)%list) by (apply in_or_app; right; now right).
    pose proof (Hbefore r Hrl1 Ek) as Hr2.
    assert (Hle : key_le r1 r).
    { assert (Hs' : StronglySorted key_le ((a ++ [r1]) ++ (b ++ r2 :: l2))%list)
        by (now rewrite <- !app_assoc in *).
      apply (sorted_app_le key_le (a ++ [r1])%list (b ++ r2 :: l2)%list Hs').
      - apply in_or_app. right. now left.
      - apply in_or_app. now left. }
    apply key_leb_same_geoid in Hle; [|congruence].
    assert (Hne : key_of r <> key_of r1).
    { rewrite <- app_assoc in Hnd. cbn [app] in Hnd.
      apply (nodup_keys_apart a (b ++ r2 :: l2)%list); [assumption|].
      apply in_or_app. right. apply in_or_app. now left. }
    assert (Hcase : year r <= year r1 \/ year r2 <= year r).
    { apply Hnone; [|assumption]. apply in_or_app. now left. }
    destruct Hcase as [Hc | Hc]; [|lia].
    apply Hne. unfold key_of. rewrite Ek, <- Eg1. f_equal. lia.
Qed.

(** On any frame, a delta is NaN or the difference with an earlier row of
    the same group. *)
Lemma groupby_diff_within_group (col : string) (l : list panel_row) :
  forall i r2, nth_error l i = Some r2 ->
    nth_error (groupby_diff col l) i = Some NaN
    \/ exists j r1, (j < i)%nat /\ nth_error l j = Some r1
         /\ geoid r1 = geoid r2
         /\ nth_error (groupby_diff col l) i
            = Some (fsub (cells r2 col) (cells r1 col)).
Proof.
  intros i r2 Hi.
  apply nth_error_split in Hi. destruct Hi as (l1 & l2 & -> & <-).
  rewrite groupby_diff_at.
  destruct (prev_value _ _ None) as [p|] eqn:Hp; [|now left].
  right. apply prev_value_in in Hp. destruct Hp as [Hp | Hp]; [discriminate|].
  apply in_map_iff in Hp. destruct Hp as (r1 & E & Hr1).
  injection E as Eg Ev.
  apply In_nth_error in Hr1. destruct Hr1 as [j Hj].
  exists j, r1.
  assert (Hlt : (j < List.length l1)%nat)
    by (apply nth_error_Some; rewrite Hj; discriminate).
  split; [exact Hlt|].
  split; [rewrite nth_error_app1; assumption|].
  split; [exact Eg|]. now rewrite Ev.
Qed.

Section DeltaFacts.
Context {S : Shapely} {V : PyValue}.

Lemma prepare_acs_panel_shape
      (acs : list acs_row) (tracts : frame tract) (redev : boundary_table)
      (P : panel) :
  prepare_acs_panel acs tracts redev = Some P ->
  exists l,
    p_rows P = sort_values l
    /\ p_delta P
       = map (fun col => ("delta_" ++ col, groupby_diff col (sort_values l)))
             numeric.
Proof.
  unfold prepare_acs_panel.
  destruct (add_redev_to_tracts tracts redev) as [T|]; [|discriminate].
  intro E. injection E as <-.
  eexists. split; reflexivity.
Qed.

(** C4, as the code has it: the panel is sorted ascending by (tract
    identifier, year) and carries a delta column for every numeric
    indicator.  A delta is never taken across two tracts: it is NaN or the
    difference with an earlier row of the same tract.  When no (tract,
    year) pair is repeated in the panel, the delta at a tract's first
    observed year is NaN, and the delta at any later observed year is the
    value of that year minus the value of the closest earlier observed
    year of the same tract; at the second observed year that is the value
    of the first. *)
Theorem delta_is_first_difference_within_tract
  (acs : list acs_row) (tracts : frame tract) (redev : boundary_table) (P : panel) :
  prepare_acs_panel acs tracts redev = Some P ->
  StronglySorted key_le (p_rows P)
  /\ forall col, In col numeric ->
       exists d,
         In ("delta_" ++ col, d) (p_delta P)
         /\ forall i r2, nth_error (p_rows P) i = Some r2 ->
              (nth_error d i = Some NaN
               \/ exists j r1,
                    (j < i)%nat /\ nth_error (p_rows P) j = Some r1
                    /\ geoid r1 = geoid r2
                    /\ nth_error d i
                       = Some (fsub (cells r2 col) (cells r1 col)))
              /\ (NoDup (map key_of (p_rows P)) ->
                  ((forall r, In r (p_rows P) -> geoid r = geoid r2 ->
                              year r2 <= year r) ->
                   nth_error d i = Some NaN)
                  /\ (forall r1,
                        In r1 (p_rows P) -> geoid r1 = geoid r2 ->
                        year r1 < year r2 ->
                        (forall r, In r (p_rows P) -> geoid r = geoid r2 ->
                                   year r <= year r1 \/ year r2 <= year r) ->
                        nth_error d i
                        = Some (fsub (cells r2 col) (cells r1 col)))).
Proof.
  intros E.
  destruct (prepare_acs_panel_shape _ _ _ _ E) as (l & Hr & Hd).
  rewrite Hr in *. rewrite Hd.
  split; [apply sort_values_sorted|].
  intros col Hcol.
  exists (groupby_diff col (sort_values l)). split.
  - exact (in_map (fun c => ("delta_" ++ c, groupby_diff c (sort_values l)))
                  numeric col Hcol).
  - intros i r2 Hi.
    split; [now apply groupby_diff_within_group|].
    intro Hnd.
    exact (groupby_diff_sorted col _ (sort_values_sorted l) Hnd i r2 Hi).
Qed.

End DeltaFacts.

(** In the toy panel the first tract is observed in 2020 with a population
    of 100 and in 2021 with 130: the delta at its 2021 row, the second row
    of the sorted panel, is 130 - 100. *)
Lemma delta_is_first_difference_within_tract_witness :
  exists P d,
    prepare_acs_panel [Toy.acs_a_2021; Toy.acs_b_2020; Toy.acs_a_2020]
                      Toy.tracts Toy.redev_single = Some P
    /\ In ("delta_total_pop", d) (p_delta P)
    /\ nth_error d 0 = Some NaN
    /\ nth_error d 1 = Some (fsub (Fin (130 # 1)) (Fin (100 # 1))).
Proof.
  destruct (prepare_acs_panel [Toy.acs_a_2021; Toy.acs_b_2020; Toy.acs_a_2020]
                              Toy.tracts Toy.redev_single) as [P|] eqn:E;
    [|vm_compute in E; discriminate].
  assert (Hkeys : map key_of (p_rows P)
                  = [ ("48439100100", 2020); ("48439100100", 2021);
                      ("48439100200", 2020) ]).
  { vm_compute in E. injection E as <-. reflexivity. }
  assert (Hnd : NoDup (map key_of (p_rows P))).
  { rewrite Hkeys.
    repeat (constructor; [simpl; intuition discriminate|]). constructor. }
  destruct (delta_is_first_difference_within_tract _ _ _ P E)
    as [_ Hdelta].
  destruct (Hdelta "total_pop") as (d & Hd & Hrows);
    [vm_compute; tauto|].
  exists P, d. split; [reflexivity|]. split; [exact Hd|].
  assert (Hshape : exists r0 r1 r2,
             p_rows P = [r0; r1; r2]
             /\ key_of r0 = ("48439100100", 2020)
             /\ key_of r1 = ("48439100100", 2021)
             /\ key_of r2 = ("48439100200", 2020)
             /\ cells r0 "total_pop" = Fin (100 # 1)
             /\ cells r1 "total_pop" = Fin (130 # 1)).
  { vm_compute in E. injection E as <-.
    do 3 eexists. split; [reflexivity|]. repeat split. }
  destruct Hshape as (r0 & r1 & r2 & Hp & K0 & K1 & K2 & V0 & V1).
  unfold key_of in K0, K1, K2.
  injection K0 as G0 Y0. injection K1 as G1 Y1. injection K2 as G2 Y2.
  split.
  - apply (proj1 (proj2 (Hrows 0%nat r0 ltac:(rewrite Hp; reflexivity)) Hnd)).
    rewrite Hp. intros r [<- | [<- | [<- | []]]] Eg; lia.
  - rewrite <- V0, <- V1.
    apply (proj2 (proj2 (Hrows 1%nat r1 ltac:(rewrite Hp; reflexivity)) Hnd) r0).
    + rewrite Hp. now left.
    + congruence.
    + lia.
    + rewrite Hp. intros r [<- | [<- | [<- | []]]] Eg; lia.
Defined.

(** C4, as stated, fails on a panel with a repeated (tract, year) pair: a
    tract that meets two boundaries has two rows in each of its years, and
    whichever of the two comes second takes its delta from the other.  At
    the first observed year, 2020, one delta is 0 instead of NaN, and at the
    second, 2021, one delta is 0 instead of 130 - 100. *)
Lemma delta_on_repeated_tract_year :
  exists P d,
    prepare_acs_panel [Toy.acs_a_2021; Toy.acs_a_2020] Toy.tracts Toy.redev = Some P
    /\ map (fun r => (geoid r, year r, cells r "total_pop")) (p_rows P)
       = [ ("48439100100", 2020, Fin (100 # 1));
           ("48439100100", 2020, Fin (100 # 1));
           ("48439100100", 2021, Fin (130 # 1));
           ("48439100100", 2021, Fin (130 # 1)) ]
    /\ In ("delta_total_pop", d) (p_delta P)
    /\ d = [ NaN; Fin (0 # 1); Fin (30 # 1); Fin (0 # 1) ]
    /\ nth_error d 1 <> Some NaN
    /\ nth_error d 3 <> Some (fsub (Fin (130 # 1)) (Fin (100 # 1))).
Proof.
  eexists. eexists. split; [vm_compute; reflexivity|].
  split; [vm_compute; reflexivity|].
  split; [left; vm_compute; reflexivity|].
  split; [reflexivity|].
  split; vm_compute; discriminate.
Qed.

(* ================================================================== *)
(** * Properties of the Dominant-Sector Selector *)

Lemma in_combine_seq {A : Type} (l : list A) (s i : nat) (x : A) :
  In (i, x) (combine (seq s (List.length l)) l)
  <-> (s <= i)%nat /\ nth_error l (i - s) = Some x.
Proof.
  revert s. induction l as [|a t IH]; intro s; simpl.
  - split; [contradiction|]. intros [_ H]. destruct (i - s)%nat; discriminate.
  - split.
    + intros [E | H].
      * injection E as <- <-. split; [lia|]. now rewrite Nat.sub_diag.
      * apply IH in H. destruct H as [Hle Hn]. split; [lia|].
        replace (i - s)%nat with (Datatypes.S (i - Datatypes.S s)) by lia.
        exact Hn.
    + intros [Hle Hn].
      destruct (Nat.eq_dec i s) as [-> | Hne].
      * rewrite Nat.sub_diag in Hn. simpl in Hn. injection Hn as <-. now left.
      * right. apply IH. split; [lia|].
        replace (i - s)%nat with (Datatypes.S (i - Datatypes.S s)) in Hn by lia.
        exact Hn.
Qed.

Lemma combine_seq_sorted {A : Type} (l : list A) (s : nat) :
  StronglySorted (fun a b : nat * A => (fst a < fst b)%nat)
                 (combine (seq s (List.length l)) l).
Proof.
  revert s. induction l as [|a t IH]; intro s; simpl; constructor.
  - apply IH.
  - apply Forall_forall. intros [i x] Hin.
    apply in_combine_seq in Hin. simpl. lia.
Qed.

Lemma filter_sorted {A : Type} (R : A -> A -> Prop) (p : A -> bool) (l : list A) :
  StronglySorted R l -> StronglySorted R (filter p l).
Proof.
  induction 1 as [|a t Ht IH Ha]; simpl; [constructor|].
  destruct (p a); [|assumption].
  constructor; [assumption|].
  rewrite Forall_forall in *. intros x Hx.
  apply filter_In in Hx. now apply Ha.
Qed.

Lemma find_first {A : Type} (p : A -> bool) (l : list A) (x : A) :
  find p l = Some x ->
  exists l1 l2, l = (l1 ++ x :: l2)%list /\ p x = true
                /\ forall y, In y l1 -> p y = false.
Proof.
  induction l as [|a t IH]; simpl; [discriminate|].
  destruct (p a) eqn:E.
  - intro H. injection H as <-. exists [], t. repeat split; [assumption|].
    intros y [].
  - intro H. destruct (IH H) as (l1 & l2 & -> & Hp & Hb).
    exists (a :: l1), l2. repeat split; [assumption|].
    intros y [<- | Hy]; [assumption | now apply Hb].
Qed.

Lemma fold_max_bounds {A : Type} (f : A -> Z) (t : list A) (a : Z) :
  let m := fold_left (fun m x => Z.max m (f x)) t a in
  a <= m /\ (forall x, In x t -> f x <= m)
  /\ (m = a \/ exists x, In x t /\ f x = m).
Proof.
  revert a. induction t as [|b t IH]; intro a; simpl.
  - split; [lia|]. split; [intros x []|now left].
  - destruct (IH (Z.max a (f b))) as (H1 & H2 & H3).
    split; [lia|]. split.
    + intros x [<- | Hx]; [lia | now apply H2].
    + destruct H3 as [E | (x & Hx & E)].
      * destruct (Z.max_spec a (f b)) as [[_ Em] | [_ Em]].
        -- right. exists b. split; [now left | congruence].
        -- left. congruence.
      * right. exists x. split; [now right | assumption].
Qed.

Lemma group_of_in (g : string) (long_df : list long_row) (i : nat) (r : long_row) :
  In (i, r) (group_of g long_df)
  <-> nth_error long_df i = Some r /\ lr_geoid r = g.
Proof.
  unfold group_of. rewrite filter_In, in_combine_seq. cbn [snd].
  rewrite Nat.sub_0_r, String.eqb_eq. intuition lia.
Qed.

(** [idxmax] on a tract that has rows: the index of a row of the tract with
    the largest job count of the tract, and the first such row. *)
Lemma idxmax_first_max (g : string) (long_df : list long_row) :
  In g (map lr_geoid long_df) ->
  exists i r,
    idxmax g long_df = Some i
    /\ nth_error long_df i = Some r
    /\ lr_geoid r = g
    /\ (forall j x, nth_error long_df j = Some x -> lr_geoid x = g ->
                    jobs x <= jobs r)
    /\ (forall j x, (j < i)%nat -> nth_error long_df j = Some x ->
                    lr_geoid x = g -> jobs x < jobs r).
Proof.
  intro Hin.
  apply in_map_iff in Hin. destruct Hin as (r0 & Eg0 & Hr0).
  apply In_nth_error in Hr0. destruct Hr0 as [i0 Hi0].
  assert (H0 : In (i0, r0) (group_of g long_df)) by (now apply group_of_in).
  unfold idxmax.
  destruct (group_of g long_df) as [|ir t] eqn:Hgrp; [contradiction|].
  cbn [max_jobs].
  set (m := fold_left (fun m x => Z.max m (jobs (snd x))) t (jobs (snd ir))).
  destruct (fold_max_bounds (fun x : nat * long_row => jobs (snd x)) t (jobs (snd ir)))
    as (Hlo & Hup & Hhit).
  fold m in Hlo, Hup, Hhit.
  assert (Hall : forall x, In x (ir :: t) -> jobs (snd x) <= m).
  { intros x [<- | Hx]; [assumption | now apply Hup]. }
  assert (Hsome : exists x, In x (ir :: t) /\ jobs (snd x) = m).
  { destruct Hhit as [E | (x & Hx & E)].
    - exists ir. split; [now left | now symmetry].
    - exists x. split; [now right | assumption]. }
  destruct (find (fun ir0 => jobs (snd ir0) =? m) (ir :: t)) as [[i r]|] eqn:Hfind.
  - destruct (find_first _ _ _ Hfind) as (l1 & l2 & Hsplit & Hp & Hbefore).
    cbn [snd] in Hp. apply Z.eqb_eq in Hp.
    assert (Hir : In (i, r) (group_of g long_df)).
    { rewrite Hgrp, Hsplit. apply in_or_app. right. now left. }
    apply group_of_in in Hir. destruct Hir as [Hi Eg].
    exists i, r. split; [reflexivity|]. split; [assumption|]. split; [assumption|].
    split.
    + intros j x Hj Ex.
      assert (Hjx : In (j, x) (ir :: t))
        by (rewrite <- Hgrp; now apply group_of_in).
      apply Hall in Hjx. cbn [snd] in Hjx. lia.
    + intros j x Hlt Hj Ex.
      assert (Hjx : In (j, x) (ir :: t))
        by (rewrite <- Hgrp; now apply group_of_in).
      pose proof (Hall _ Hjx) as Hle. cbn [snd] in Hle.
      assert (Hsorted : StronglySorted (fun a b : nat * long_row => (fst a < fst b)%nat)
                          (l1 ++ (i, r) :: l2)%list).
      { rewrite <- Hsplit, <- Hgrp. unfold group_of.
        apply filter_sorted, combine_seq_sorted. }
      rewrite Hsplit in Hjx. apply in_app_or in Hjx.
      destruct Hjx as [Hj1 | [E | Hj2]].
      * apply Hbefore in Hj1. cbn [snd] in Hj1. apply Z.eqb_neq in Hj1. lia.
      * injection E as -> _. lia.
      * exfalso.
        assert (Hs' : StronglySorted (fun a b : nat * long_row => (fst a < fst b)%nat)
                        ((l1 ++ [(i, r)]) ++ l2)%list)
          by (now rewrite <- app_assoc).
        pose proof (sorted_app_le _ _ _ Hs' (i, r) (j, x)
                      ltac:(apply in_or_app; right; now left) Hj2) as Hij.
        cbn [fst] in Hij. lia.
  - exfalso. destruct Hsome as (x & Hx & E).
    apply (find_none _ _ Hfind) in Hx.
    apply Z.eqb_neq in Hx. contradiction.
Qed.

Lemma insert_key_perm (x : string) (l : list string) :
  Permutation (insert_key x l) (x :: l).
Proof.
  induction l as [|y t IH]; simpl; [reflexivity|].
  destruct (String.leb x y); [reflexivity|].
  rewrite IH. apply perm_swap.
Qed.

Lemma group_keys_perm (long_df : list long_row) :
  Permutation (group_keys long_df) (nodup string_dec (map lr_geoid long_df)).
Proof.
  unfold group_keys.
  induction (nodup string_dec (map lr_geoid long_df)) as [|x t IH]; simpl;
    [reflexivity|].
  rewrite insert_key_perm. now constructor.
Qed.

Lemma filter_all_true {A : Type} (p : A -> bool) (l : list A) :
  (forall x, In x l -> p x = true) -> filter p l = l.
Proof.
  induction l as [|a t IH]; simpl; intro H; [reflexivity|].
  rewrite (H a (or_introl eq_refl)), IH; [reflexivity|].
  intros; apply H; now right.
Qed.

Lemma filter_all_false {A : Type} (p : A -> bool) (l : list A) :
  (forall x, In x l -> p x = false) -> filter p l = [].
Proof.
  induction l as [|a t IH]; simpl; intro H; [reflexivity|].
  rewrite (H a (or_introl eq_refl)). apply IH.
  intros; apply H; now right.
Qed.

Lemma filter_flat_map_key {B : Type} (key : B -> string) (f : string -> list B)
      (keys : list string) (g : string) :
  NoDup keys -> In g keys ->
  (forall k x, In x (f k) -> key x = k) ->
  filter (fun x => String.eqb (key x) g) (flat_map f keys) = f g.
Proof.
  intros Hnd Hin Hkey.
  assert (Hnone : forall l, ~ In g l ->
            filter (fun x => String.eqb (key x) g) (flat_map f l) = []).
  { intros l Hl. apply filter_all_false. intros x Hx.
    apply in_flat_map in Hx. destruct Hx as (k & Hk & Hx).
    apply String.eqb_neq. rewrite (Hkey k x Hx). intros ->. contradiction. }
  induction keys as [|k t IH]; [contradiction|].
  inversion Hnd as [|? ? Hnotin Ht]; subst.
  cbn [flat_map]. rewrite filter_app.
  destruct Hin as [-> | Hin].
  - rewrite (Hnone t Hnotin), app_nil_r.
    apply filter_all_true. intros x Hx.
    apply String.eqb_eq. now apply Hkey.
  - rewrite (IH Ht Hin).
    rewrite filter_all_false; [reflexivity|].
    intros x Hx. apply String.eqb_neq. rewrite (Hkey k x Hx).
    intros ->. contradiction.
Qed.

Lemma melt_first_block (lodes : list wide_row) :
  exists rest,
    melt lodes
    = (map (fun w => mkLong (w_geoid w) (w_redev_name w) "CNS01"
                       (w_counts w "CNS01") (Some "Agriculture_Forestry_Fishing"))
           lodes ++ rest)%list.
Proof.
  eexists. unfold melt. unfold sector_cols, SECTOR_MAP.
  cbn [map fst flat_map]. reflexivity.
Qed.

Lemma melt_in (lodes : list wide_row) (x : long_row) :
  In x (melt lodes) ->
  exists w s, In w lodes /\ In s sector_cols
              /\ lr_geoid x = w_geoid w /\ naics_sector x = s
              /\ jobs x = w_counts w s.
Proof.
  unfold melt. intro H. apply in_flat_map in H. destruct H as (s & Hs & H).
  apply in_map_iff in H. destruct H as (w & <- & Hw).
  exists w, s. repeat split; assumption.
Qed.

(** C10: for every tract identifier of the aggregated table the selector
    outputs exactly one row: a row of that tract in the long-form table with
    the largest job count of the tract, and the first such row in table
    order.  When all the sector counts of the tract are zero that row is
    the tract's first row of the long form, the one of sector CNS01
    (Agriculture_Forestry_Fishing), with a job count of 0. *)
Theorem dominant_one_row_per_tract (lodes : list wide_row) (g : string) :
  In g (map w_geoid lodes) ->
  exists i r,
    filter (fun d => String.eqb (lr_geoid d) g) (dominant (melt lodes)) = [r]
    /\ nth_error (melt lodes) i = Some r
    /\ lr_geoid r = g
    /\ (forall j x, nth_error (melt lodes) j = Some x -> lr_geoid x = g ->
                    jobs x <= jobs r)
    /\ (forall j x, (j < i)%nat -> nth_error (melt lodes) j = Some x ->
                    lr_geoid x = g -> jobs x < jobs r)
    /\ ((forall w s, In w lodes -> w_geoid w = g -> In s sector_cols ->
                     w_counts w s = 0) ->
        naics_sector r = "CNS01"
        /\ sector_name r = Some "Agriculture_Forestry_Fishing"
        /\ jobs r = 0
        /\ forall j x, (j < i)%nat -> nth_error (melt lodes) j = Some x ->
                       lr_geoid x <> g).
Proof.
  intro Hg.
  destruct (melt_first_block lodes) as [rest Hmelt].
  assert (Hfirst : exists j0 w0, (j0 < List.length lodes)%nat
             /\ nth_error (melt lodes) j0
                = Some (mkLong (w_geoid w0) (w_redev_name w0) "CNS01"
                          (w_counts w0 "CNS01") (Some "Agriculture_Forestry_Fishing"))
             /\ In w0 lodes /\ w_geoid w0 = g).
  { apply in_map_iff in Hg. destruct Hg as (w0 & Eg & Hw0).
    destruct (In_nth_error _ _ Hw0) as [j0 Hj0].
    assert (Hlt : (j0 < List.length lodes)%nat)
      by (apply nth_error_Some; rewrite Hj0; discriminate).
    exists j0, w0. split; [exact Hlt|]. split; [|split; assumption].
    rewrite Hmelt, nth_error_app1 by (now rewrite length_map).
    now rewrite nth_error_map, Hj0. }
  assert (Hlong : In g (map lr_geoid (melt lodes))).
  { destruct Hfirst as (j0 & w0 & _ & Hj0 & _ & Eg).
    apply nth_error_In in Hj0. apply in_map_iff.
    eexists. split; [|exact Hj0]. exact Eg. }
  destruct (idxmax_first_max g (melt lodes) Hlong)
    as (i & r & Hidx & Hi & Eg & Hmax & Hbefore).
  exists i, r.
  split.
  { unfold dominant.
    rewrite (filter_flat_map_key lr_geoid).
    - now rewrite Hidx, Hi.
    - eapply Permutation_NoDup; [symmetry; apply group_keys_perm|].
      apply NoDup_nodup.
    - eapply Permutation_in; [symmetry; apply group_keys_perm|].
      now apply nodup_In.
    - intros k x Hx.
      destruct (idxmax k (melt lodes)) as [ik|] eqn:Hik; [|contradiction].
      destruct (nth_error (melt lodes) ik) as [rk|] eqn:Hrk; [|contradiction].
      destruct Hx as [<- | []].
      unfold idxmax in Hik.
      destruct (max_jobs (group_of k (melt lodes))) as [m|]; [|discriminate].
      destruct (find _ (group_of k (melt lodes))) as [[i' r']|] eqn:Hf;
        [|discriminate].
      injection Hik as <-.
      apply find_some in Hf. destruct Hf as [Hf _].
      apply group_of_in in Hf. destruct Hf as [Hn Ek].
      rewrite Hrk in Hn. now injection Hn as ->. }
  split; [exact Hi|]. split; [exact Eg|]. split; [exact Hmax|].
  split; [exact Hbefore|].
  intro Hzero.
  assert (Hjobs : forall j x, nth_error (melt lodes) j = Some x -> lr_geoid x = g ->
                              jobs x = 0).
  { intros j x Hj Ex. apply nth_error_In in Hj.
    destruct (melt_in lodes x Hj) as (w & s & Hw & Hs & Ew & _ & Ej).
    rewrite Ej. apply Hzero; [assumption | congruence | assumption]. }
  assert (Hnone : forall j x, (j < i)%nat -> nth_error (melt lodes) j = Some x ->
                              lr_geoid x <> g).
  { intros j x Hlt Hj Ex.
    pose proof (Hbefore j x Hlt Hj Ex) as H1.
    rewrite (Hjobs j x Hj Ex), (Hjobs i r Hi Eg) in H1. lia. }
  destruct Hfirst as (j0 & w0 & Hlt0 & Hj0 & Hw0 & Eg0).
  assert (Hle : (i <= j0)%nat).
  { destruct (Nat.le_gt_cases i j0) as [H | H]; [assumption|].
    exfalso. apply (Hnone j0 _ H Hj0). exact Eg0. }
  assert (Hr : exists w, r = mkLong (w_geoid w) (w_redev_name w) "CNS01"
                             (w_counts w "CNS01")
                             (Some "Agriculture_Forestry_Fishing")).
  { rewrite Hmelt, nth_error_app1 in Hi by (rewrite length_map; lia).
    rewrite nth_error_map in Hi.
    destruct (nth_error lodes i) as [w|]; [|discriminate].
    exists w. now injection Hi as <-. }
  destruct Hr as [w Hr].
  split; [now rewrite Hr|]. split; [now rewrite Hr|].
  split; [exact (Hjobs i r Hi Eg) | exact Hnone].
Qed.

(** In the toy table the first tract has no jobs in any sector: its one
    selected row is the CNS01 row with a count of 0. *)
Lemma dominant_one_row_per_tract_witness :
  exists r,
    filter (fun d => String.eqb (lr_geoid d) "48439100100")
           (dominant (melt Toy.lodes)) = [r]
    /\ naics_sector r = "CNS01"
    /\ sector_name r = Some "Agriculture_Forestry_Fishing"
    /\ jobs r = 0.
Proof.
  destruct (dominant_one_row_per_tract Toy.lodes "48439100100")
    as (i & r & Hone & _ & _ & _ & _ & Hzero); [simpl; tauto|].
  exists r. split; [exact Hone|].
  destruct Hzero as (Hs & Hn & Hj & _).
  - intros w s [<- | [<- | []]] Eg _; [reflexivity | discriminate Eg].
  - repeat split; assumption.
Defined.

(* ================================================================== *)
(** * Properties of the Dot-Density Synthesizer *)

Lemma dot_count_floor (j : Z) :
  dot_count j = Z.min (j / 50) 250
  /\ dot_count j <= 250
  /\ (0 < j -> 0 <= dot_count j /\ 50 * dot_count j <= j)
  /\ (dot_count j < 250 -> j < 50 * (dot_count j + 1)).
Proof.
  unfold dot_count, jobs_per_dot, max_dots_per_tract.
  pose proof (Z.div_mod j 50 ltac:(lia)) as Hdm.
  pose proof (Z.mod_pos_bound j 50 ltac:(lia)) as Hb.
  repeat split; lia.
Qed.

Section LodesFacts.
Context {S : Shapely} {R : PyRandom coord}.

(** What one run of the attempt loop does: it stops after [k <= n] draws;
    with a dot, the dot sits at the [k]-th draw, which is the first one
    inside the polygon; without one, all [n] draws were outside. *)
Lemma place_attempts_spec (n : nat) (g : geom) (r : long_row) (st : rng) :
  exists k,
    (k <= n)%nat
    /\ snd (place_attempts n g r st) = after_draws k g st
    /\ (forall j, (j < k - 1)%nat -> contains g (nth_draw j g st) = false)
    /\ match fst (place_attempts n g r st) with
       | Some d =>
           (1 <= k)%nat
           /\ d = dot_of r (nth_draw (k - 1) g st)
           /\ contains g (nth_draw (k - 1) g st) = true
       | None =>
           k = n /\ forall j, (j < n)%nat -> contains g (nth_draw j g st) = false
       end.
Proof.
  revert st. induction n as [|n IH]; intro st.
  - exists 0%nat. cbn [place_attempts fst snd after_draws].
    repeat split; intros; lia.
  - cbn [place_attempts].
    destruct (draw_point g st) as [p st1] eqn:Hd.
    assert (Hp : p = nth_draw 0 g st)
      by (unfold nth_draw; cbn [after_draws]; now rewrite Hd).
    assert (Hst : st1 = snd (draw_point g st)) by (now rewrite Hd).
    destruct (contains g p) eqn:Hc.
    + exists 1%nat. cbn [fst snd after_draws]. rewrite <- Hst.
      split; [lia|]. split; [reflexivity|]. split; [intros; lia|].
      cbn [Nat.sub]. rewrite <- Hp.
      split; [lia|]. split; [reflexivity | exact Hc].
    + destruct (IH st1) as (k & Hk & Hs & Hout & Hres).
      assert (Hshift : forall j, nth_draw (Datatypes.S j) g st = nth_draw j g st1).
      { intro j. unfold nth_draw. cbn [after_draws]. now rewrite <- Hst. }
      assert (Hstep : forall j, (j < k)%nat ->
                (forall i, (i < k - 1)%nat -> contains g (nth_draw i g st1) = false) ->
                (j < Datatypes.S k - 1)%nat ->
                contains g (nth_draw j g st) = false).
      { intros j _ Hall Hj. destruct j as [|j]; [now rewrite <- Hp|].
        rewrite Hshift. apply Hall. lia. }
      exists (Datatypes.S k). split; [lia|].
      split; [cbn [after_draws]; now rewrite <- Hst|].
      split.
      * intros j Hj. apply (Hstep j); [lia | exact Hout | exact Hj].
      * destruct (fst (place_attempts n g r st1)) as [d|].
        -- destruct Hres as (Hk1 & Ed & Hin).
           replace (Datatypes.S k - 1)%nat with (Datatypes.S (k - 1)) by lia.
           rewrite Hshift. split; [lia|]. split; assumption.
        -- destruct Hres as [-> Hall]. split; [reflexivity|].
           intros j Hj. destruct j as [|j]; [now rewrite <- Hp|].
           rewrite Hshift. apply Hall. lia.
Qed.

Lemma place_attempts_dot (n : nat) (g : geom) (r : long_row) (st : rng) (d : dot) :
  fst (place_attempts n g r st) = Some d ->
  contains g (d_geometry d) = true
  /\ exists p, d = dot_of r p.
Proof.
  intro H. destruct (place_attempts_spec n g r st) as (k & _ & _ & _ & Hres).
  rewrite H in Hres. destruct Hres as (_ & -> & Hc).
  split; [exact Hc | eauto].
Qed.

Lemma place_dots_spec (count : nat) (g : geom) (r : long_row) (st : rng) :
  (List.length (fst (place_dots count g r st)) <= count)%nat
  /\ forall d, In d (fst (place_dots count g r st)) ->
       contains g (d_geometry d) = true /\ exists p, d = dot_of r p.
Proof.
  revert st. induction count as [|c IH]; intro st; cbn [place_dots].
  - cbn [fst List.length]. split; [lia | intros d []].
  - destruct (place_attempts 20 g r st) as [o st1] eqn:Ha.
    destruct (place_dots c g r st1) as [ds st2] eqn:Hd.
    destruct (IH st1) as [Hlen Hall]. rewrite Hd in Hlen, Hall.
    cbn [fst] in *.
    destruct o as [d0|]; cbn [List.length].
    + split; [lia|]. intros d [<- | Hin]; [|now apply Hall].
      apply (place_attempts_dot 20 g r st). now rewrite Ha.
    + split; [lia | exact Hall].
Qed.

Lemma row_dots_spec (tracts : list labelled) (r : long_row) (st st' : rng)
      (ds : list dot) :
  row_dots tracts r st = Some (ds, st') -> row_ok tracts r ds.
Proof.
  unfold row_dots, row_ok.
  destruct (jobs r <=? 0) eqn:Hj.
  - intro E. injection E as <- <-. apply Z.leb_le in Hj.
    split; [reflexivity|]. split; [reflexivity|].
    split; [intro; lia|]. intros d [].
  - apply Z.leb_gt in Hj.
    destruct (dot_count_floor (jobs r)) as (Hmin & Hcap & Hpos & _).
    unfold loc_geometry.
    destruct (filter _ tracts) as [|t [|t' ts]] eqn:Hf.
    + discriminate.
    + intro E. injection E as E.
      destruct (place_dots_spec (Z.to_nat (dot_count (jobs r)))
                  (t_geometry (l_tract t)) r st) as [Hlen Hall].
      assert (Eds : ds = fst (place_dots (Z.to_nat (dot_count (jobs r)))
                                (t_geometry (l_tract t)) r st))
        by (now rewrite E).
      rewrite <- Eds in Hlen, Hall. clear E Eds.
      split; [lia|]. split.
      { intro Hz. unfold dot_count, jobs_per_dot, max_dots_per_tract in Hlen.
        rewrite Hz in Hlen. simpl in Hlen.
        destruct ds; [reflexivity | simpl in Hlen; lia]. }
      split; [intros _; split; [lia | split; assumption]|].
      intros d Hd. destruct (Hall d Hd) as [Hc (p & Ed)].
      split; [eauto|]. exists t. split; [|exact Hc].
      rewrite Ed. cbn [dot_of d_geoid]. exact Hf.
    + destruct (dot_count (jobs r) <=? 0) eqn:Hc; [|discriminate].
      intro E. injection E as <- <-. apply Z.leb_le in Hc.
      split; [reflexivity|]. split; [reflexivity|].
      split; [intros _; cbn [List.length]; split; [lia | split; assumption]|].
      intros d [].
Qed.

Lemma rows_dots_spec (tracts : list labelled) (l : list long_row) (st st' : rng)
      (dots : list dot) :
  rows_dots tracts l st = Some (dots, st') ->
  exists per_row, dots = List.concat per_row /\ Forall2 (row_ok tracts) l per_row.
Proof.
  revert st st' dots. induction l as [|r t IH]; intros st st' dots; cbn [rows_dots].
  - intro E. injection E as <- _. exists []. split; [reflexivity | constructor].
  - destruct (row_dots tracts r st) as [[ds st1]|] eqn:Hr; [|discriminate].
    destruct (rows_dots tracts t st1) as [[ds' st2]|] eqn:Ht; [|discriminate].
    intro E. injection E as <- _.
    destruct (IH st1 st2 ds' Ht) as (per_row & -> & Hall).
    exists (ds :: per_row). split; [reflexivity|].
    constructor; [|exact Hall]. eapply row_dots_spec; eassumption.
Qed.

Lemma rows_dots_total (tracts : list labelled) (l : list long_row) (st : rng) :
  (forall r, In r l -> 0 < jobs r ->
     exists t, filter (fun t => String.eqb (GEOID (l_tract t)) (lr_geoid r)) tracts
               = [t]) ->
  exists res, rows_dots tracts l st = Some res.
Proof.
  revert st. induction l as [|r t IH]; intros st H; cbn [rows_dots]; [eauto|].
  assert (Hr : exists res, row_dots tracts r st = Some res).
  { unfold row_dots. destruct (jobs r <=? 0) eqn:Hj; [eauto|].
    apply Z.leb_gt in Hj.
    destruct (H r (or_introl eq_refl) Hj) as [t0 Ht0].
    unfold loc_geometry. rewrite Ht0. eauto. }
  destruct Hr as [[ds st1] ->].
  destruct (IH st1) as [[ds' st2] ->]; [intros; apply H; [now right | assumption]|].
  eauto.
Qed.

Lemma rows_dots_none (tracts : list labelled) (l : list long_row) (st : rng) :
  rows_dots tracts l st = None ->
  exists r, In r l /\ 0 < jobs r
            /\ forall t, filter (fun t => String.eqb (GEOID (l_tract t)) (lr_geoid r))
                                tracts <> [t].
Proof.
  revert st. induction l as [|r t IH]; intro st; cbn [rows_dots]; [discriminate|].
  destruct (row_dots tracts r st) as [[ds st1]|] eqn:Hr.
  - destruct (rows_dots tracts t st1) as [[ds' st2]|] eqn:Ht; [discriminate|].
    intros _. destruct (IH st1 Ht) as (r' & Hin & Hbad).
    exists r'. split; [now right | exact Hbad].
  - intros _. exists r. split; [now left|].
    unfold row_dots, loc_geometry in Hr.
    destruct (jobs r <=? 0) eqn:Hj; [discriminate|].
    apply Z.leb_gt in Hj. split; [exact Hj|].
    intros t0 Ht0. rewrite Ht0 in Hr. discriminate.
Qed.

(** C5: a run of the synthesis pass either returns the dots of the rows of
    the long-form table, row after row, or raises because the tract
    identifier of some row with a positive job count does not label
    exactly one tract polygon.  In the dots it returns, a row with a job
    count of 0 or less, or with [floor(jobs / 50) = 0], has none; a row
    with a positive count has at most its target
    [min(floor(jobs / 50), 250)], hence at most 250; and every dot carries
    the attributes of its row. *)
Theorem dots_per_row_within_target
  (tracts : list labelled) (long_df : list long_row) (ambient : rng) :
  match synthesize tracts long_df ambient with
  | Some (dots, _) =>
      exists per_row,
        dots = List.concat per_row
        /\ Forall2
             (fun r ds =>
                (jobs r <= 0 -> ds = [])
                /\ (jobs r / 50 = 0 -> ds = [])
                /\ (0 < jobs r ->
                    Z.of_nat (List.length ds) <= dot_count (jobs r)
                    /\ dot_count (jobs r) = Z.min (jobs r / 50) 250
                    /\ dot_count (jobs r) <= 250)
                /\ forall d, In d ds -> exists p, d = dot_of r p)
             long_df per_row
  | None =>
      exists r, In r long_df /\ 0 < jobs r
                /\ forall t, filter (fun t => String.eqb (GEOID (l_tract t))
                                                         (lr_geoid r))
                                    tracts <> [t]
  end.
Proof.
  unfold synthesize.
  destruct (rows_dots tracts long_df (seed 42)) as [[dots st']|] eqn:E.
  - destruct (rows_dots_spec _ _ _ _ _ E) as (per_row & Hd & Hall).
    exists per_row. split; [exact Hd|].
    eapply Forall2_impl; [|exact Hall].
    intros r ds (H1 & H2 & H3 & H4).
    split; [exact H1|]. split; [exact H2|]. split; [exact H3|].
    intros d Hin. now destruct (H4 d Hin).
  - exact (rows_dots_none _ _ _ E).
Qed.

Lemma place_attempts_slot (g : geom) (r : long_row) (st : rng) :
  slot g r st (fst (place_attempts 20 g r st)) (snd (place_attempts 20 g r st)).
Proof.
  destruct (place_attempts_spec 20 g r st) as (k & Hk & Hs & Hout & Hres).
  rewrite Hs.
  destruct (fst (place_attempts 20 g r st)) as [d|].
  - destruct Hres as (Hk1 & -> & Hin).
    replace k with (Datatypes.S (k - 1)) at 2 by lia.
    apply slot_hit; [lia | exact Hout | exact Hin].
  - destruct Hres as [-> Hall]. now apply slot_skip.
Qed.

Lemma place_dots_slots (count : nat) (g : geom) (r : long_row) (st : rng) :
  slots g r count st (fst (place_dots count g r st)) (snd (place_dots count g r st)).
Proof.
  revert st. induction count as [|c IH]; intro st; cbn [place_dots].
  - apply slots_done.
  - pose proof (place_attempts_slot g r st) as Hslot.
    destruct (place_attempts 20 g r st) as [o st1]. cbn [fst snd] in Hslot.
    specialize (IH st1).
    destruct (place_dots c g r st1) as [ds st2]. cbn [fst snd] in *.
    exact (slots_next g r c st st1 st2 o ds Hslot IH).
Qed.

Lemma rows_dots_pass (tracts : list labelled) (l : list long_row) (st st' : rng)
      (dots : list dot) :
  rows_dots tracts l st = Some (dots, st') -> pass tracts l st dots st'.
Proof.
  revert st st' dots. induction l as [|r t IH]; intros st st' dots;
    cbn [rows_dots].
  - intro E. injection E as <- <-. apply pass_done.
  - destruct (row_dots tracts r st) as [[ds st1]|] eqn:Hr; [|discriminate].
    destruct (rows_dots tracts t st1) as [[ds' st2]|] eqn:Ht; [|discriminate].
    intro E. injection E as <- <-.
    specialize (IH st1 st2 ds' Ht).
    unfold row_dots in Hr.
    destruct (jobs r <=? 0) eqn:Hj.
    + injection Hr as <- <-. apply Z.leb_le in Hj.
      apply pass_skip; [|exact IH].
      unfold dot_count, jobs_per_dot, max_dots_per_tract.
      assert (jobs r / 50 <= 0) by (apply Z.div_le_upper_bound; lia). lia.
    + apply Z.leb_gt in Hj. unfold loc_geometry in Hr.
      destruct (filter (fun t0 => String.eqb (GEOID (l_tract t0)) (lr_geoid r)) tracts)
        as [|t0 [|t1 ts]] eqn:Hf.
      * discriminate.
      * injection Hr as Hr.
        pose proof (place_dots_slots (Z.to_nat (dot_count (jobs r)))
                      (t_geometry (l_tract t0)) r st) as Hslots.
        rewrite Hr in Hslots. cbn [fst snd] in Hslots.
        exact (pass_row tracts r t t0 st st1 st2 ds ds' Hj Hf Hslots IH).
      * destruct (dot_count (jobs r) <=? 0) eqn:Hc; [|discriminate].
        injection Hr as <- <-. apply Z.leb_le in Hc.
        now apply pass_skip.
Qed.

(** C6: every dot of a run lies inside the polygon of the one tract its
    identifier labels, by the containment test of the geometry library;
    and the run follows the draw protocol [pass] from the seeded state to
    the state it ends in: the rows in order, each target dot of a row
    taking at most 20 draws from the bounding rectangle of the row's
    polygon, the first draw inside the polygon becoming the dot, and a
    target dot whose 20 draws all fall outside leaving no dot. *)
Theorem dots_inside_tract_within_20_draws
  (tracts : list labelled) (long_df : list long_row) (ambient st' : rng)
  (dots : list dot) :
  synthesize tracts long_df ambient = Some (dots, st') ->
  (forall d, In d dots ->
     exists t, filter (fun t => String.eqb (GEOID (l_tract t)) (d_geoid d)) tracts
               = [t]
               /\ contains (t_geometry (l_tract t)) (d_geometry d) = true)
  /\ pass tracts long_df (seed 42) dots st'.
Proof.
  unfold synthesize. intro E. split.
  - destruct (rows_dots_spec _ _ _ _ _ E) as (per_row & -> & Hall).
    intros d Hd. apply in_concat in Hd. destruct Hd as (ds & Hds & Hd).
    clear E. induction Hall as [|r ds0 l per Hok _ IH]; [contradiction|].
    destruct Hds as [-> | Hds]; [|now apply IH].
    destruct Hok as (_ & _ & _ & H4). now destruct (H4 d Hd).
  - now apply rows_dots_pass.
Qed.

(** C7: the synthesis pass reseeds the generator with the constant 42
    before its first draw, so its result does not depend on the state the
    generator was in: two runs on the same inputs return the same dots in
    the same order, whatever the state each one starts from, and so does a
    second run started in the state the first one left. *)
Theorem synthesis_is_deterministic
  (origin : list origin_row) (tracts : frame labelled)
  (long_df : list long_row) (ambient1 ambient2 : rng) :
  synthesize (rows tracts) long_df ambient1 = synthesize (rows tracts) long_df ambient2
  /\ synthesize (rows tracts) long_df ambient1 = rows_dots (rows tracts) long_df (seed 42)
  /\ process_lodes origin tracts ambient1 = process_lodes origin tracts ambient2
  /\ match synthesize (rows tracts) long_df ambient1 with
     | Some (dots, st) =>
         synthesize (rows tracts) long_df st = Some (dots, st)
     | None => True
     end.
Proof.
  split; [reflexivity|]. split; [reflexivity|]. split; [reflexivity|].
  unfold synthesize.
  destruct (rows_dots (rows tracts) long_df (seed 42)) as [[dots st]|];
    [reflexivity | exact I].
Qed.

End LodesFacts.

(** A run with a skip and a retry.  The one target dot of the first tract
    is skipped, its 20 draws all falling on the border of the rectangle;
    the first dot of the second tract is the fifth draw of its slot, the
    four before it falling outside. *)
Lemma dots_inside_tract_within_20_draws_witness :
  exists dots st',
    @synthesize Toy.boxes Toy.lcg Retry.tracts Retry.long_df 7 = Some (dots, st')
    /\ map (@d_geoid Toy.boxes) dots = [ "48439100400"; "48439100400" ]
    /\ @pass Toy.boxes Toy.lcg Retry.tracts Retry.long_df 42 dots st'
    /\ (forall d, In d dots ->
          Toy.box_contains (0, 0, 2, 2) (@d_geometry Toy.boxes d) = true)
    /\ (forall i, (i < 20)%nat ->
          Toy.box_contains (0, 0, 1, 1)
            (@nth_draw Toy.boxes Toy.lcg i (0, 0, 1, 1) 42) = false)
    /\ (forall i, (i < 4)%nat ->
          Toy.box_contains (0, 0, 2, 2)
            (@nth_draw Toy.boxes Toy.lcg i (0, 0, 2, 2)
               (@after_draws Toy.boxes Toy.lcg 20 (0, 0, 1, 1) 42)) = false)
    /\ map (@d_geometry Toy.boxes) (firstn 1 dots)
       = [ @nth_draw Toy.boxes Toy.lcg 4 (0, 0, 2, 2)
             (@after_draws Toy.boxes Toy.lcg 20 (0, 0, 1, 1) 42) ].
Proof.
  eexists. eexists. split; [vm_compute; reflexivity|].
  split; [reflexivity|].
  pose proof (@dots_inside_tract_within_20_draws Toy.boxes Toy.lcg
                Retry.tracts Retry.long_df 7 _ _
                ltac:(vm_compute; reflexivity)) as [Hin Hpass].
  split; [exact Hpass|].
  split.
  - intros d Hd. destruct (Hin d Hd) as (t & Ht & Hc).
    destruct Hd as [<- | [<- | []]];
      vm_compute in Ht; injection Ht as <-; exact Hc.
  - split; [|split].
    + intros i Hi.
      do 20 (destruct i as [|i]; [vm_compute; reflexivity|]). lia.
    + intros i Hi.
      do 4 (destruct i as [|i]; [vm_compute; reflexivity|]). lia.
    + vm_compute. reflexivity.
Defined.

(** The targets of the scenario: 120 jobs give 2 dots, 30 jobs give none,
    and the cap is reached from 12500 jobs on. *)
Example dot_count_scenario :
  dot_count 120 = 2 /\ dot_count 30 = 0 /\ dot_count 12499 = 249
  /\ dot_count 12500 = 250 /\ dot_count 1000000 = 250.
Proof. repeat split; reflexivity. Qed.

(** A rectangle without interior grid points takes all 20 draws and gets no
    dot. *)
Example sliver_gets_no_dot :
  fst (@place_attempts Toy.boxes Toy.lcg 20 (0, 0, 1, 1)
         (mkLong "48439100200" None "CNS07" 120 (Some "Retail_Trade")) 42) = None.
Proof. vm_compute. reflexivity. Qed.

(* ================================================================== *)
(** * Further properties of the Spatial Attributor *)

Section SpatialMore.
Context {S : Shapely} {V : PyValue}.

(** X1: [pick_name_column] raises only on a table without columns.
    Otherwise it returns a column of the table: the candidate of highest
    priority that labels a column, whatever the order of the columns; when
    no candidate labels a column, the first column of dtype [object]; and
    when there is none either, the first column. *)
Theorem pick_name_column_priority (columns : list (string * bool)) :
  match pick_name_column columns with
  | None => columns = []
  | Some col =>
      In col (map fst columns)
      /\ ((exists pre post,
             candidates = (pre ++ col :: post)%list
             /\ forall c, In c pre -> ~ In c (map fst columns))
          \/ ((forall c, In c candidates -> ~ In c (map fst columns))
              /\ exists pre post,
                   columns = (pre ++ (col, true) :: post)%list
                   /\ forall x, In x pre -> snd x = false)
          \/ ((forall c, In c candidates -> ~ In c (map fst columns))
              /\ (forall x, In x columns -> snd x = false)
              /\ exists b t, columns = (col, b) :: t))
  end.
Proof.
  assert (Hpresent : forall c, existsb (String.eqb c) (map fst columns) = true
                               <-> In c (map fst columns)).
  { intro c. rewrite existsb_exists. split.
    - intros (x & Hx & E). apply String.eqb_eq in E. now subst.
    - intro H. exists c. split; [assumption | apply String.eqb_refl]. }
  destruct (pick_name_column columns) as [col|] eqn:Hpick.
  - split; [now apply pick_name_column_in|].
    unfold pick_name_column in Hpick.
    destruct (find _ candidates) as [c|] eqn:Hc.
    + injection Hpick as ->. left.
      destruct (find_first _ _ _ Hc) as (pre & post & Hsplit & _ & Hpre).
      exists pre, post. split; [exact Hsplit|].
      intros c Hin Habs. apply Hpresent in Habs.
      rewrite (Hpre c Hin) in Habs. discriminate.
    + assert (Hnone : forall c, In c candidates -> ~ In c (map fst columns)).
      { intros c Hin Habs. apply Hpresent in Habs.
        rewrite (find_none _ _ Hc c Hin) in Habs. discriminate. }
      right.
      destruct (find (fun c => snd c) columns) as [[c b]|] eqn:Ho.
      * injection Hpick as ->. left. split; [exact Hnone|].
        destruct (find_first _ _ _ Ho) as (pre & post & Hsplit & Hb & Hpre).
        cbn [snd] in Hb. subst b. exists pre, post. split; assumption.
      * right. split; [exact Hnone|].
        split; [intros x Hx; exact (find_none _ _ Ho x Hx)|].
        destruct columns as [|[c b] t]; [discriminate|].
        injection Hpick as ->. eauto.
  - destruct columns as [|c t]; [reflexivity|].
    destruct (pick_name_column_some (c :: t) ltac:(discriminate)) as [x Hx].
    congruence.
Qed.

Lemma matches_of_count (right_df : frame (string * geom)) (t : tract) :
  map l_tract (matches_of right_df t)
  = repeat t (Nat.max 1 (List.length
                           (filter (fun b => intersects (t_geometry t) (snd b))
                                   (rows right_df)))).
Proof.
  unfold matches_of.
  destruct (filter _ (rows right_df)) as [|b ms]; [reflexivity|].
  rewrite map_map. cbn [l_tract].
  replace (Nat.max 1 (List.length (b :: ms))) with (List.length (b :: ms))
    by (cbn [List.length]; lia).
  induction (b :: ms) as [|x l IH]; cbn [map List.length repeat]; [reflexivity|].
  now rewrite IH.
Qed.

(** X2: the attributed frame keeps the CRS and the order of the tract frame,
    and holds each tract once per boundary its polygon intersects, and once
    when it intersects none. *)
Theorem add_redev_rows_per_tract
  (tracts : frame tract) (redev : boundary_table) (out : frame labelled) :
  add_redev_to_tracts tracts redev = Some out ->
  crs out = crs tracts
  /\ map l_tract (rows out)
     = flat_map
         (fun t =>
            repeat t
              (Nat.max 1
                 (List.length
                    (filter (fun b => intersects (t_geometry t) (b_geometry b))
                            (rows (bt_frame redev))))))
         (rows tracts).
Proof.
  unfold add_redev_to_tracts, sjoin_operands.
  destruct (pick_name_column (bt_columns redev)) as [name_col|]; [|discriminate].
  intro E. injection E as <-. cbn [crs rows sjoin].
  split; [reflexivity|].
  rewrite map_map. cbn [l_tract].
  induction (rows tracts) as [|t l IH]; cbn [flat_map]; [reflexivity|].
  rewrite map_app, IH. f_equal.
  change (map (fun x : labelled => l_tract x) ?l) with (map l_tract l).
  rewrite matches_of_count. cbn [rows].
  now rewrite filter_map_comm, length_map.
Qed.

End SpatialMore.

(** Of the two toy tracts the first meets both boundaries and the second
    none: the attributed frame holds the first twice and the second once. *)
Lemma add_redev_rows_per_tract_witness :
  exists out,
    add_redev_to_tracts Toy.tracts Toy.redev = Some out
    /\ map l_tract (rows out) = [Toy.tract_a; Toy.tract_a; Toy.tract_b].
Proof.
  eexists. split; [vm_compute; reflexivity|].
  exact (proj2 (add_redev_rows_per_tract Toy.tracts Toy.redev _
                  ltac:(vm_compute; reflexivity))).
Defined.

(* ================================================================== *)
(** * Further properties of the Indicator Deriver *)

Lemma eqb_other (c name : string) : c <> name -> String.eqb c name = false.
Proof. intro H. now apply String.eqb_neq. Qed.

(** X3: the deriver writes nine columns (the three age bands, the five
    rates and [ba_plus]) and leaves every other column of a row as it
    was. *)
Theorem deriver_writes_derived_columns_only (r : row) (c : string) :
  ~ In c [ "age_under18"; "age_18_64"; "age_65_plus"; "poverty_rate";
           "owner_rate"; "renter_rate"; "ba_plus"; "ba_plus_rate";
           "hispanic_rate" ] ->
  compute_rates (compute_age_bands r) c = r c.
Proof.
  intro H. cbn [In] in H.
  unfold compute_rates, compute_age_bands, set.
  rewrite !eqb_other by (intro E; apply H; rewrite E; tauto).
  reflexivity.
Qed.

(** A raw count survives the derivation. *)
Lemma deriver_writes_derived_columns_only_witness :
  compute_rates (compute_age_bands (Toy.acs_cells 100)) "total_pop"
  = Fin (inject_Z 100).
Proof.
  rewrite (deriver_writes_derived_columns_only (Toy.acs_cells 100) "total_pop").
  - reflexivity.
  - cbn [In]. intuition discriminate.
Defined.

Lemma fadd_nan_r (x : fval) : fadd x NaN = NaN.
Proof. destruct x; reflexivity. Qed.

(** X4: unlike the age bands, the bachelor's-plus total is built with [+]
    and is missing as soon as one of its four inputs is missing, and so is
    its rate; with four integer counts it is their sum. *)
Theorem ba_plus_propagates_missing (r : row) :
  (r "edu_ba" = NaN \/ r "edu_ma" = NaN \/ r "edu_prof" = NaN \/ r "edu_phd" = NaN ->
   compute_rates r "ba_plus" = NaN /\ compute_rates r "ba_plus_rate" = NaN)
  /\ (forall a b c d : Z,
        r "edu_ba" = Fin (inject_Z a) -> r "edu_ma" = Fin (inject_Z b) ->
        r "edu_prof" = Fin (inject_Z c) -> r "edu_phd" = Fin (inject_Z d) ->
        compute_rates r "ba_plus" = Fin (inject_Z (a + b + c + d))
        /\ compute_rates r "ba_plus_rate"
           = fdiv (Fin (inject_Z (a + b + c + d))) (r "edu_total_25plus")).
Proof.
  assert (Hb : compute_rates r "ba_plus"
               = fadd (fadd (fadd (r "edu_ba") (r "edu_ma")) (r "edu_prof"))
                      (r "edu_phd")) by reflexivity.
  assert (Hr : compute_rates r "ba_plus_rate"
               = fdiv (fadd (fadd (fadd (r "edu_ba") (r "edu_ma")) (r "edu_prof"))
                            (r "edu_phd"))
                      (r "edu_total_25plus")) by reflexivity.
  rewrite Hb, Hr. split.
  - intros [E | [E | [E | E]]]; rewrite E;
      rewrite ?fadd_nan_r; cbn [fadd]; rewrite ?fadd_nan_r; split; reflexivity.
  - intros a b c d -> -> -> ->. rewrite !fadd_counts. split; reflexivity.
Qed.

(** X5: a rate whose dividend and divisor are integer counts with
    [0 <= dividend <= divisor] and a positive divisor is a finite number
    between 0 and 1. *)
Theorem rate_within_unit_interval
  (r : row) (name : string) (num den : row -> fval) (n d : Z) :
  In (name, (num, den)) rate_table ->
  num r = Fin (inject_Z n) -> den r = Fin (inject_Z d) ->
  0 <= n <= d -> 0 < d ->
  exists q, compute_rates r name = Fin q /\ (0 <= q)%Q /\ (q <= 1)%Q.
Proof.
  intros Hin Hn Hd Hnd Hpos.
  rewrite (rate_is_quotient r name num den Hin), Hn, Hd.
  assert (Hd0 : ~ (inject_Z d == 0)%Q).
  { unfold Qeq, inject_Z; simpl. lia. }
  rewrite (fdiv_nonzero_divisor _ _ Hd0).
  eexists. split; [reflexivity|].
  assert (Hdq : (0 < inject_Z d)%Q) by (unfold Qlt, inject_Z; simpl; lia).
  rewrite Qred_correct. split.
  - apply Qle_shift_div_l; [exact Hdq|].
    unfold Qle, Qmult, inject_Z; cbn [Qnum Qden].
    change (Z.pos (1 * 1)) with 1. lia.
  - apply Qle_shift_div_r; [exact Hdq|].
    unfold Qle, Qmult, inject_Z; cbn [Qnum Qden].
    change (Z.pos (1 * 1)) with 1. lia.
Qed.

(** 40 owner-occupied out of 100 occupied units. *)
Lemma rate_within_unit_interval_witness :
  let r : row :=
    fun c => if String.eqb c "owner_occ" then Fin (inject_Z 40)
             else if String.eqb c "renter_occ" then Fin (inject_Z 60)
             else Fin (inject_Z 0) in
  exists q, compute_rates r "owner_rate" = Fin q /\ (0 <= q)%Q /\ (q <= 1)%Q.
Proof.
  intro r.
  apply (rate_within_unit_interval r "owner_rate"
           (fun r => r "owner_occ")
           (fun r => fadd (r "owner_occ") (r "renter_occ")) 40 100).
  - right. left. reflexivity.
  - reflexivity.
  - reflexivity.
  - lia.
  - lia.
Defined.

(* ================================================================== *)
(** * Further properties of the Panel Builder *)

Lemma merge_left_in (acs : list panel_row) (labels : list (string * option string))
      (r : panel_row) :
  In r (merge_left acs labels) <->
  exists a, In a acs
    /\ geoid r = geoid a /\ year r = year a /\ cells r = cells a
    /\ ((redev_name r = None /\ forall l, In l labels -> fst l <> geoid a)
        \/ exists l, In l labels /\ fst l = geoid a /\ redev_name r = snd l)
    /\ r = mkPanelRow (geoid a) (year a) (redev_name r) (cells a).
Proof.
  unfold merge_left. rewrite in_flat_map. split.
  - intros (a & Ha & Hr). exists a. split; [exact Ha|].
    destruct (filter (fun l => String.eqb (fst l) (geoid a)) labels) as [|l ms] eqn:Hf.
    + destruct Hr as [<- | []]. cbn. repeat split.
      left. split; [reflexivity|]. intros l Hl E.
      assert (Hin : In l (filter (fun l => String.eqb (fst l) (geoid a)) labels))
        by (apply filter_In; split; [assumption | now apply String.eqb_eq]).
      rewrite Hf in Hin. contradiction.
    + apply in_map_iff in Hr. destruct Hr as (l' & <- & Hl').
      rewrite <- Hf in Hl'. apply filter_In in Hl'. destruct Hl' as [Hin E].
      apply String.eqb_eq in E. cbn. repeat split.
      right. exists l'. repeat split; assumption.
  - intros (a & Ha & Eg & Ey & Ec & Hlab & Er). exists a. split; [exact Ha|].
    destruct Hlab as [[En Hnone] | (l & Hl & El & En)].
    + rewrite filter_all_false.
      * left. rewrite Er, En. reflexivity.
      * intros l Hl. apply String.eqb_neq. now apply Hnone.
    + assert (Hin : In l (filter (fun l => String.eqb (fst l) (geoid a)) labels))
        by (apply filter_In; split; [assumption | now apply String.eqb_eq]).
      destruct (filter (fun l => String.eqb (fst l) (geoid a)) labels) as [|l0 ms] eqn:Hf;
        [contradiction|].
      apply in_map_iff. exists l. split; [|exact Hin].
      rewrite Er, En. reflexivity.
Qed.

Lemma diff_scan_length (prev : string -> option fval) (kv : list (string * fval)) :
  List.length (diff_scan prev kv) = List.length kv.
Proof.
  revert prev. induction kv as [|[k v] t IH]; intro prev; cbn [diff_scan List.length];
    [reflexivity|]. now rewrite IH.
Qed.

Section PanelMore.
Context {S : Shapely} {V : PyValue}.

Lemma add_redev_labels_of_tracts
      (tracts : frame tract) (redev : boundary_table) (T : frame labelled) :
  add_redev_to_tracts tracts redev = Some T ->
  forall j, In j (rows T) ->
    In (l_tract j) (rows tracts) /\ l_redev_name j <> None.
Proof.
  unfold add_redev_to_tracts, sjoin_operands.
  destruct (pick_name_column (bt_columns redev)) as [name_col|]; [|discriminate].
  intro E. injection E as <-. cbn [rows sjoin].
  intros j Hj. apply in_map_iff in Hj. destruct Hj as (j0 & <- & Hj0).
  apply in_flat_map in Hj0. destruct Hj0 as (t & Ht & Hj0).
  apply matches_of_label in Hj0. destruct Hj0 as [-> _].
  cbn [l_tract l_redev_name]. split; [exact Ht|].
  destruct (l_redev_name j0); discriminate.
Qed.

(** X6: the label join is a left join.  Every ACS record is in the panel,
    under the identifier made of its state, county and tract codes, with
    its year and its derived cells; every panel row comes from such a
    record; no panel row has a null label; and a record whose identifier
    labels no tract of the tract file carries the label "None". *)
Theorem panel_keeps_every_record
  (acs : list acs_row) (tracts : frame tract) (redev : boundary_table) (P : panel) :
  prepare_acs_panel acs tracts redev = Some P ->
  (forall a, In a acs ->
     exists r, In r (p_rows P)
       /\ geoid r = a_state a ++ a_county a ++ a_tract a
       /\ year r = a_year a
       /\ cells r = compute_rates (compute_age_bands (a_cells a)))
  /\ (forall r, In r (p_rows P) ->
        redev_name r <> None
        /\ (exists a, In a acs
              /\ geoid r = a_state a ++ a_county a ++ a_tract a
              /\ year r = a_year a
              /\ cells r = compute_rates (compute_age_bands (a_cells a)))
        /\ ((forall t, In t (rows tracts) -> GEOID t <> geoid r) ->
            redev_name r = Some "None")).
Proof.
  unfold prepare_acs_panel.
  destruct (add_redev_to_tracts tracts redev) as [T|] eqn:HT; [|discriminate].
  intro E. injection E as <-. cbn [p_rows].
  set (acs0 := map (fun a => mkPanelRow (a_state a ++ a_county a ++ a_tract a)
                               (a_year a) None
                               (compute_rates (compute_age_bands (a_cells a)))) acs).
  set (labels := map (fun j => (GEOID (l_tract j), l_redev_name j)) (rows T)).
  assert (Hsort : forall r,
            In r (sort_values
                    (map (fun r => mkPanelRow (geoid r) (year r)
                                     (fillna_label (redev_name r)) (cells r))
                         (merge_left acs0 labels)))
            <-> exists m, In m (merge_left acs0 labels)
                  /\ r = mkPanelRow (geoid m) (year m)
                           (fillna_label (redev_name m)) (cells m)).
  { intro r. split.
    - intro H. apply (Permutation_in _ (sort_values_perm _)) in H.
      apply in_map_iff in H. destruct H as (m & <- & Hm). eauto.
    - intros (m & Hm & ->).
      apply (Permutation_in _ (Permutation_sym (sort_values_perm _))).
      apply in_map_iff. eauto. }
  split.
  - intros a Ha.
    assert (Ha0 : In (mkPanelRow (a_state a ++ a_county a ++ a_tract a) (a_year a)
                        None (compute_rates (compute_age_bands (a_cells a)))) acs0)
      by (unfold acs0; apply in_map_iff; eauto).
    set (a0 := mkPanelRow _ _ _ _) in Ha0.
    assert (Hm : exists m, In m (merge_left acs0 labels)
                  /\ geoid m = geoid a0 /\ year m = year a0 /\ cells m = cells a0).
    { destruct (filter (fun l => String.eqb (fst l) (geoid a0)) labels) as [|l ms] eqn:Hf.
      - exists (mkPanelRow (geoid a0) (year a0) None (cells a0)).
        split; [|repeat split].
        unfold merge_left. apply in_flat_map. exists a0. split; [exact Ha0|].
        rewrite Hf. now left.
      - exists (mkPanelRow (geoid a0) (year a0) (snd l) (cells a0)).
        split; [|repeat split].
        unfold merge_left. apply in_flat_map. exists a0. split; [exact Ha0|].
        rewrite Hf. left. reflexivity. }
    destruct Hm as (m & Hm & Eg & Ey & Ec).
    exists (mkPanelRow (geoid m) (year m) (fillna_label (redev_name m)) (cells m)).
    split; [apply Hsort; eauto|].
    cbn [geoid year cells]. rewrite Eg, Ey, Ec. repeat split.
  - intros r Hr. apply Hsort in Hr. destruct Hr as (m & Hm & ->).
    cbn [geoid year cells redev_name].
    apply merge_left_in in Hm.
    destruct Hm as (a0 & Ha0 & Eg & Ey & Ec & Hlab & _).
    unfold acs0 in Ha0. apply in_map_iff in Ha0. destruct Ha0 as (a & <- & Ha).
    cbn [geoid year cells] in *.
    split; [destruct (redev_name m); discriminate|].
    split; [exists a; repeat split; assumption|].
    intro Hnone.
    destruct Hlab as [[En _] | (l & Hl & El & En)]; [now rewrite En|].
    exfalso. unfold labels in Hl. apply in_map_iff in Hl.
    destruct Hl as (j & <- & Hj). cbn [fst] in El.
    destruct (add_redev_labels_of_tracts _ _ _ HT j Hj) as [Hin _].
    apply (Hnone _ Hin). congruence.
Qed.

(** X7: the panel carries one delta column per numeric indicator, the 25
    columns kept besides [geoid], [year] and [redev_name], under the name
    of the indicator prefixed with [delta_], and every delta column has one
    entry per panel row. *)
Theorem delta_columns_shape
  (acs : list acs_row) (tracts : frame tract) (redev : boundary_table) (P : panel) :
  prepare_acs_panel acs tracts redev = Some P ->
  map fst (p_delta P) = map (fun c => "delta_" ++ c) numeric
  /\ List.length (p_delta P) = 25%nat
  /\ (forall c, In c numeric <->
        In c keep_cols /\ c <> "geoid" /\ c <> "year" /\ c <> "redev_name")
  /\ forall name d, In (name, d) (p_delta P) ->
       List.length d = List.length (p_rows P).
Proof.
  intro E. destruct (prepare_acs_panel_shape _ _ _ _ E) as (l & Hr & Hd).
  rewrite Hd, Hr. split; [now rewrite map_map|].
  split; [reflexivity|]. split.
  - intro c. unfold numeric. rewrite filter_In, negb_true_iff.
    cbn [existsb]. rewrite !orb_false_iff, !String.eqb_neq. tauto.
  - intros name d Hin. apply in_map_iff in Hin. destruct Hin as (c & Ec & _).
    injection Ec as _ <-. unfold groupby_diff.
    now rewrite diff_scan_length, length_map.
Qed.

End PanelMore.

(** The toy panel of three records has three rows, and its population
    delta has three entries. *)
Lemma delta_columns_shape_witness :
  exists P d,
    prepare_acs_panel [Toy.acs_a_2021; Toy.acs_b_2020; Toy.acs_a_2020]
                      Toy.tracts Toy.redev_single = Some P
    /\ In ("delta_total_pop", d) (p_delta P)
    /\ List.length d = List.length (p_rows P).
Proof.
  destruct (prepare_acs_panel [Toy.acs_a_2021; Toy.acs_b_2020; Toy.acs_a_2020]
                              Toy.tracts Toy.redev_single) as [P|] eqn:E;
    [|vm_compute in E; discriminate].
  destruct (delta_columns_shape _ _ _ P E) as (Hnames & _ & _ & Hlen).
  destruct (p_delta P) as [|[name d] t] eqn:Hp; [discriminate|].
  injection Hnames as Hname _.
  exists P, d. split; [reflexivity|].
  rewrite Hp. split; [left; now rewrite Hname|].
  apply (Hlen name). now left.
Defined.

(** A record of a tract that is not in the tract file stays in the panel
    under the label "None". *)
Lemma panel_keeps_every_record_witness :
  exists P r,
    prepare_acs_panel [mkAcs "48" "113" "000100" 2020 (Toy.acs_cells 5)]
                      Toy.tracts Toy.redev = Some P
    /\ In r (p_rows P)
    /\ geoid r = "48113000100"
    /\ redev_name r = Some "None".
Proof.
  destruct (prepare_acs_panel [mkAcs "48" "113" "000100" 2020 (Toy.acs_cells 5)]
                              Toy.tracts Toy.redev) as [P|] eqn:E;
    [|vm_compute in E; discriminate].
  destruct (panel_keeps_every_record _ _ _ P E) as [Hkeep Hrows].
  destruct (Hkeep _ (or_introl eq_refl)) as (r & Hr & Eg & _).
  exists P, r. split; [reflexivity|]. split; [exact Hr|].
  cbn in Eg. split; [exact Eg|].
  apply (Hrows r Hr). rewrite Eg.
  intros t [<- | [<- | []]]; discriminate.
Defined.

(* ================================================================== *)
(** * Snapshot, metadata and the variable check *)

Lemma latest_year_max (l : list panel_row) (y : Z) :
  latest_year l = Some y ->
  (forall r, In r l -> year r <= y) /\ exists r, In r l /\ year r = y.
Proof.
  destruct l as [|r0 t]; [discriminate|]. cbn [latest_year].
  intro E. injection E as <-.
  destruct (fold_max_bounds year t (year r0)) as (Hlo & Hup & Hhit).
  split.
  - intros r [<- | Hr]; [exact Hlo | now apply Hup].
  - destruct Hhit as [E | (r & Hr & E)].
    + exists r0. split; [now left | now symmetry].
    + exists r. split; [now right | exact E].
Qed.

(** X8: the metadata step raises on an empty panel and on no other.  On a
    panel with rows it records the largest year of the panel, a year some
    row has, together with the kept columns and the delta names. *)
Theorem metadata_records_largest_year (l : list panel_row) :
  match acs_metadata l with
  | None => l = []
  | Some m =>
      l <> []
      /\ (forall r, In r l -> year r <= m_latest_year m)
      /\ (exists r, In r l /\ year r = m_latest_year m)
      /\ m_acs_variables m = keep_cols
      /\ m_delta_variables m = map (fun c => "delta_" ++ c) numeric
  end.
Proof.
  unfold acs_metadata.
  destruct (latest_year l) as [y|] eqn:E.
  - destruct (latest_year_max l y E) as [Hup Hhit]. cbn [m_latest_year].
    split; [intros ->; discriminate|].
    split; [exact Hup|]. split; [exact Hhit|]. split; reflexivity.
  - destruct l; [reflexivity | discriminate].
Qed.

Section SnapshotFacts.
Context {S : Shapely}.

(** X9: the latest snapshot is a left join from the tract side.  It holds
    the labelled tracts in their order, each at least once; a panel row
    attached to a tract has the identifier of the tract and the largest
    year of the whole panel; and a tract without a panel row of that year
    appears once with no row attached. *)
Theorem snapshot_keeps_every_tract (tracts : list labelled) (l : list panel_row) :
  (forall t, In t tracts -> exists s, In s (acs_latest tracts l) /\ s_tract s = t)
  /\ (forall s, In s (acs_latest tracts l) ->
        In (s_tract s) tracts
        /\ match s_row s with
           | Some r =>
               In r l
               /\ geoid r = GEOID (l_tract (s_tract s))
               /\ latest_year l = Some (year r)
               /\ forall r', In r' l -> year r' <= year r
           | None =>
               forall r, In r l -> geoid r = GEOID (l_tract (s_tract s)) ->
                         latest_year l <> Some (year r)
           end).
Proof.
  unfold acs_latest. split.
  - intros t Ht.
    destruct (filter (fun r => String.eqb (geoid r) (GEOID (l_tract t))) (latest l))
      as [|r ms] eqn:Hf.
    + exists (mkSnapshot t None). split; [|reflexivity].
      apply in_flat_map. exists t. split; [exact Ht|]. rewrite Hf. now left.
    + exists (mkSnapshot t (Some r)). split; [|reflexivity].
      apply in_flat_map. exists t. split; [exact Ht|]. rewrite Hf. now left.
  - intros s Hs. apply in_flat_map in Hs. destruct Hs as (t & Ht & Hs).
    destruct (filter (fun r => String.eqb (geoid r) (GEOID (l_tract t))) (latest l))
      as [|r0 ms] eqn:Hf.
    + destruct Hs as [<- | []]. cbn [s_tract s_row]. split; [exact Ht|].
      intros r Hr Eg Ey.
      assert (Hin : In r (filter (fun r => String.eqb (geoid r) (GEOID (l_tract t)))
                                 (latest l))).
      { apply filter_In. split; [|now apply String.eqb_eq].
        unfold latest. rewrite Ey. apply filter_In.
        split; [exact Hr | apply Z.eqb_refl]. }
      rewrite Hf in Hin. contradiction.
    + apply in_map_iff in Hs. destruct Hs as (r & <- & Hr).
      cbn [s_tract s_row]. split; [exact Ht|].
      rewrite <- Hf in Hr. apply filter_In in Hr. destruct Hr as [Hr Eg].
      apply String.eqb_eq in Eg. unfold latest in Hr.
      destruct (latest_year l) as [y|] eqn:Ey; [|contradiction].
      apply filter_In in Hr. destruct Hr as [Hr Eyr]. apply Z.eqb_eq in Eyr.
      subst y. split; [exact Hr|]. split; [exact Eg|]. split; [reflexivity|].
      exact (proj1 (latest_year_max l _ Ey)).
Qed.

End SnapshotFacts.

Lemma rename_keeps_other (vars : list (string * string)) (columns cols' : list string)
      (c : string) :
  rename_variables vars columns = inr cols' ->
  In c columns -> ~ In c (map snd vars) -> In c cols'.
Proof.
  revert columns. induction vars as [|[k v] t IH]; intros columns; cbn [rename_variables].
  - intro E. injection E as <-. tauto.
  - destruct (existsb (String.eqb v) columns); [|discriminate].
    intros E Hc Hn. apply (IH _ E).
    + apply in_map_iff. exists c. split; [|exact Hc].
      destruct (String.eqb c v) eqn:Ecv; [|reflexivity].
      apply String.eqb_eq in Ecv. exfalso. apply Hn. left. now symmetry.
    + intro H. apply Hn. now right.
Qed.

Lemma rename_in_iff (k v c : string) (columns : list string) :
  c <> v -> c <> k ->
  (In c (map (fun x => if String.eqb x v then k else x) columns) <-> In c columns).
Proof.
  intros Hv Hk. rewrite in_map_iff. split.
  - intros (x & E & Hx). destruct (String.eqb x v); [congruence | now subst].
  - intro H. exists c. split; [|exact H].
    now rewrite (proj2 (String.eqb_neq c v) Hv).
Qed.

Lemma existsb_eqb_in (v : string) (columns : list string) :
  existsb (String.eqb v) columns = true <-> In v columns.
Proof.
  rewrite existsb_exists. split.
  - intros (x & Hx & E). apply String.eqb_eq in E. now subst.
  - intro H. exists v. split; [exact H | apply String.eqb_refl].
Qed.

(** The check and the renaming for any table whose codes are distinct and
    are not semantic names. *)
Lemma rename_variables_spec (vars : list (string * string)) (columns : list string) :
  NoDup (map snd vars) ->
  (forall k v, In k (map fst vars) -> In v (map snd vars) -> k <> v) ->
  match rename_variables vars columns with
  | inl code =>
      ~ In code columns
      /\ exists pre key post,
           vars = (pre ++ (key, code) :: post)%list
           /\ forall kv, In kv pre -> In (snd kv) columns
  | inr cols' =>
      List.length cols' = List.length columns
      /\ forall kv, In kv vars -> In (snd kv) columns /\ In (fst kv) cols'
  end.
Proof.
  revert columns. induction vars as [|[k v] t IH]; intros columns Hnd Hdis;
    cbn [rename_variables].
  - split; [reflexivity | intros kv []].
  - cbn [map snd fst] in Hnd, Hdis.
    inversion Hnd as [|? ? Hv Ht]; subst.
    destruct (existsb (String.eqb v) columns) eqn:Ev.
    + apply existsb_eqb_in in Ev.
      set (columns' := map (fun x => if String.eqb x v then k else x) columns).
      assert (Hiff : forall c, In c (map snd t) -> (In c columns' <-> In c columns)).
      { intros c Hc. apply rename_in_iff.
        - intros ->. contradiction.
        - intros ->. apply (Hdis k k); [now left | now right | reflexivity]. }
      specialize (IH columns' Ht
                    (fun k0 v0 Hk0 Hv0 => Hdis k0 v0 (or_intror Hk0) (or_intror Hv0))).
      destruct (rename_variables t columns') as [code | cols'] eqn:Er.
      * destruct IH as (Hmiss & pre & key & post & Hsplit & Hpre).
        assert (Hcode : In code (map snd t)).
        { rewrite Hsplit, map_app. apply in_or_app. right. now left. }
        split; [now rewrite <- (Hiff code Hcode)|].
        exists ((k, v) :: pre), key, post. split; [now rewrite Hsplit|].
        intros kv [<- | Hkv]; [exact Ev|].
        apply Hiff; [|now apply Hpre].
        rewrite Hsplit, map_app. apply in_or_app. left. now apply in_map.
      * destruct IH as (Hlen & Hall).
        split; [unfold columns' in Hlen; now rewrite length_map in Hlen|].
        intros kv [<- | Hkv].
        -- cbn [fst snd]. split; [exact Ev|].
           apply (rename_keeps_other t columns' cols' k Er).
           ++ unfold columns'. apply in_map_iff. exists v.
              split; [now rewrite String.eqb_refl | exact Ev].
           ++ intro H. apply (Hdis k k); [now left | now right | reflexivity].
        -- destruct (Hall kv Hkv) as [H1 H2]. split; [|exact H2].
           apply Hiff; [now apply in_map | exact H1].
    + split.
      * intro H. apply existsb_eqb_in in H. congruence.
      * exists [], k, t. split; [reflexivity | intros kv []].
Qed.

(** X10: the variable check of [prepare_acs_panel] on the ACS table.  It
    raises exactly when some code of the table labels no column, naming the
    first such code in table order; when it passes, every code labelled a
    column, every semantic name labels one afterwards, and the number of
    columns is unchanged. *)
Theorem variable_check_names_first_missing_code (columns : list string) :
  match rename_variables ACS_VARIABLES columns with
  | inl code =>
      ~ In code columns
      /\ exists pre key post,
           ACS_VARIABLES = (pre ++ (key, code) :: post)%list
           /\ forall kv, In kv pre -> In (snd kv) columns
  | inr cols' =>
      List.length cols' = List.length columns
      /\ forall kv, In kv ACS_VARIABLES ->
           In (snd kv) columns /\ In (fst kv) cols'
  end.
Proof.
  apply rename_variables_spec.
  - replace (map snd ACS_VARIABLES)
      with (nodup string_dec (map snd ACS_VARIABLES)) by (vm_compute; reflexivity).
    apply NoDup_nodup.
  - intros k v Hk Hv ->.
    assert (Hnone : forallb (fun x => negb (existsb (String.eqb x) (map snd ACS_VARIABLES)))
                            (map fst ACS_VARIABLES) = true)
      by (vm_compute; reflexivity).
    rewrite forallb_forall in Hnone. specialize (Hnone v Hk).
    apply negb_true_iff in Hnone.
    apply existsb_eqb_in in Hv. congruence.
Qed.

(* ================================================================== *)
(** * Further properties of the Sector Aggregator and the synthesis *)

Lemma insert_key_in (x y : string) (l : list string) :
  In y (insert_key x l) <-> y = x \/ In y l.
Proof.
  split.
  - intro H. apply (Permutation_in _ (insert_key_perm x l)) in H.
    destruct H as [<- | H]; [now left | now right].
  - intro H. apply (Permutation_in _ (Permutation_sym (insert_key_perm x l))).
    destruct H as [-> | H]; [now left | now right].
Qed.

Lemma sorted_keys_in (l : list string) (y : string) :
  In y (fold_right insert_key [] l) <-> In y l.
Proof.
  induction l as [|x t IH]; cbn [fold_right]; [tauto|].
  rewrite insert_key_in, IH. cbn [In]. intuition congruence.
Qed.

Lemma sorted_keys_nodup (l : list string) :
  NoDup l -> NoDup (fold_right insert_key [] l).
Proof.
  induction 1 as [|x t Hx Ht IH]; cbn [fold_right]; [constructor|].
  apply (Permutation_NoDup (Permutation_sym (insert_key_perm x _))).
  constructor; [now rewrite sorted_keys_in | exact IH].
Qed.

Lemma filter_key_single {A : Type} (key : A -> string) (l : list A) (t : A) :
  NoDup (map key l) -> In t l ->
  filter (fun x => String.eqb (key x) (key t)) l = [t].
Proof.
  intros Hnd Hin.
  pose proof (filter_key_nodup key l (key t) Hnd) as Hlen.
  assert (Ht : In t (filter (fun x => String.eqb (key x) (key t)) l))
    by (apply filter_In; split; [exact Hin | apply String.eqb_refl]).
  destruct (filter (fun x => String.eqb (key x) (key t)) l) as [|a [|b m]].
  - contradiction.
  - destruct Ht as [-> | []]. reflexivity.
  - cbn [List.length] in Hlen. lia.
Qed.

Section LodesMore.
Context {S : Shapely} {R : PyRandom coord}.

Lemma aggregate_in (origin : list origin_row) (tracts : list labelled) (w : wide_row) :
  In w (aggregate origin tracts) <->
  exists t, In t tracts
    /\ (exists o, In o origin /\ tract_of o = GEOID (l_tract t))
    /\ w = mkWide (GEOID (l_tract t)) (l_redev_name t)
             (fun s => fold_right Z.add 0
                         (map (fun o => o_counts o s)
                              (filter (fun o => String.eqb (tract_of o)
                                                           (GEOID (l_tract t)))
                                      origin))).
Proof.
  unfold aggregate. fold tract_of. rewrite in_flat_map. split.
  - intros (g & Hg & Hw).
    apply (proj1 (sorted_keys_in _ _)) in Hg. apply (proj1 (nodup_In _ _ _)) in Hg.
    apply in_map_iff in Hg. destruct Hg as (o & Eo & Ho).
    apply in_map_iff in Hw. destruct Hw as (t & <- & Ht).
    apply filter_In in Ht. destruct Ht as [Ht Eg]. apply String.eqb_eq in Eg.
    exists t. split; [exact Ht|]. split; [exists o; split; congruence|].
    now rewrite Eg.
  - intros (t & Ht & (o & Ho & Eo) & ->).
    exists (GEOID (l_tract t)). split.
    + apply (proj2 (sorted_keys_in _ _)), (proj2 (nodup_In _ _ _)), in_map_iff. eauto.
    + apply in_map_iff. exists t. split; [reflexivity|].
      apply filter_In. split; [exact Ht | apply String.eqb_refl].
Qed.

(** X11: the aggregated table is the inner join of the per-tract sums with
    the labelled tracts.  It has a row exactly for each labelled tract whose
    identifier is the 11-character prefix of the geocode of some workplace
    record; the row carries the label of the tract and, per sector, the sum
    of the counts of the records with that prefix.  Records whose prefix
    labels no tract leave no row. *)
Theorem aggregate_is_inner_join (origin : list origin_row) (tracts : list labelled) :
  (forall w, In w (aggregate origin tracts) ->
     (exists t, In t tracts /\ GEOID (l_tract t) = w_geoid w
                /\ l_redev_name t = w_redev_name w)
     /\ (exists o, In o origin /\ substring 0 11 (h_geocode o) = w_geoid w)
     /\ forall s, w_counts w s
                  = fold_right Z.add 0
                      (map (fun o => o_counts o s)
                           (filter (fun o => String.eqb (substring 0 11 (h_geocode o))
                                                        (w_geoid w))
                                   origin)))
  /\ (forall t o, In t tracts -> In o origin ->
        substring 0 11 (h_geocode o) = GEOID (l_tract t) ->
        exists w, In w (aggregate origin tracts)
                  /\ w_geoid w = GEOID (l_tract t)
                  /\ w_redev_name w = l_redev_name t)
  /\ (forall o, In o origin ->
        (forall t, In t tracts -> GEOID (l_tract t) <> substring 0 11 (h_geocode o)) ->
        forall w, In w (aggregate origin tracts) ->
                  w_geoid w <> substring 0 11 (h_geocode o)).
Proof.
  split; [|split].
  - intros w Hw. apply aggregate_in in Hw.
    destruct Hw as (t & Ht & (o & Ho & Eo) & ->). cbn [w_geoid w_redev_name w_counts].
    split; [exists t; repeat split; exact Ht|].
    split; [exists o; split; assumption | reflexivity].
  - intros t o Ht Ho Eo. eexists. split.
    + apply aggregate_in. exists t. split; [exact Ht|].
      split; [exists o; split; assumption | reflexivity].
    + split; reflexivity.
  - intros o Ho Hnone w Hw E. apply aggregate_in in Hw.
    destruct Hw as (t & Ht & _ & ->). cbn [w_geoid] in E.
    exact (Hnone t Ht E).
Qed.

Lemma melt_in_iff (lodes : list wide_row) (x : long_row) :
  In x (melt lodes) <->
  exists w s, In w lodes /\ In s sector_cols
    /\ x = mkLong (w_geoid w) (w_redev_name w) s (w_counts w s) (sector_lookup s).
Proof.
  unfold melt. rewrite in_flat_map. split.
  - intros (s & Hs & Hx). apply in_map_iff in Hx. destruct Hx as (w & <- & Hw).
    exists w, s. repeat split; assumption.
  - intros (w & s & Hw & Hs & ->). exists s. split; [exact Hs|].
    apply in_map_iff. eauto.
Qed.

Lemma flat_map_length_const {A B : Type} (f : A -> list B) (l : list A) (n : nat) :
  (forall a, In a l -> List.length (f a) = n) ->
  List.length (flat_map f l) = (List.length l * n)%nat.
Proof.
  induction l as [|a t IH]; cbn [flat_map List.length]; intro H; [reflexivity|].
  rewrite length_app, H by (now left). rewrite IH by (intros; apply H; now right).
  lia.
Qed.

(** X12: the reshape to the long form is lossless.  The long-form table has
    20 rows per row of the aggregated table, one per sector column, each
    holding the count of that column; every one of its rows comes from such
    a pair; and the display name of every row is present, the one
    [SECTOR_MAP] gives its sector code. *)
Theorem melt_is_lossless (lodes : list wide_row) :
  List.length (melt lodes) = (20 * List.length lodes)%nat
  /\ (forall w s, In w lodes -> In s sector_cols ->
        exists x, In x (melt lodes)
          /\ lr_geoid x = w_geoid w /\ lr_redev_name x = w_redev_name w
          /\ naics_sector x = s /\ jobs x = w_counts w s)
  /\ (forall x, In x (melt lodes) ->
        (exists w, In w lodes /\ lr_geoid x = w_geoid w
                   /\ lr_redev_name x = w_redev_name w
                   /\ jobs x = w_counts w (naics_sector x))
        /\ exists name, sector_name x = Some name
                        /\ In (naics_sector x, name) SECTOR_MAP).
Proof.
  split; [|split].
  - unfold melt. rewrite (flat_map_length_const _ _ (List.length lodes)).
    + reflexivity.
    + intros s _. apply length_map.
  - intros w s Hw Hs. eexists. split.
    + apply melt_in_iff. exists w, s. repeat split; assumption.
    + repeat split.
  - intros x Hx. apply melt_in_iff in Hx. destruct Hx as (w & s & Hw & Hs & ->).
    cbn [lr_geoid lr_redev_name naics_sector jobs sector_name].
    split; [exists w; repeat split; exact Hw|].
    unfold sector_cols in Hs. apply in_map_iff in Hs. destruct Hs as ([c n] & <- & Hcn).
    cbn [fst]. exists n. split; [|exact Hcn].
    cbn [In] in Hcn.
    repeat (destruct Hcn as [E | Hcn]; [injection E as <- <-; reflexivity|]).
    contradiction.
Qed.

Lemma rows_dots_each (tracts : list labelled) (l : list long_row) (st : rng)
      (res : list dot * rng) :
  rows_dots tracts l st = Some res ->
  forall r, In r l -> exists st0 res0, row_dots tracts r st0 = Some res0.
Proof.
  revert st res. induction l as [|r0 t IH]; intros st res; cbn [rows_dots];
    [intros _ r []|].
  destruct (row_dots tracts r0 st) as [[ds st1]|] eqn:Hr; [|discriminate].
  destruct (rows_dots tracts t st1) as [[ds' st2]|] eqn:Ht; [|discriminate].
  intros _ r [<- | Hin]; [eauto|]. exact (IH st1 _ Ht r Hin).
Qed.

(** X13: [process_lodes] does not raise when no tract identifier is
    repeated among the labelled tracts: every row of the long form then
    finds the one polygon of its tract. *)
Theorem process_lodes_returns_on_unique_tracts
  (origin : list origin_row) (tracts : frame labelled) (ambient : rng) :
  NoDup (map (fun t => GEOID (l_tract t)) (rows tracts)) ->
  exists out st,
    process_lodes origin tracts ambient = Some (out, st)
    /\ out_long out = melt (aggregate origin (rows tracts))
    /\ out_dominant out = dominant (out_long out).
Proof.
  intro Hnd. unfold process_lodes, synthesize.
  destruct (rows_dots_total (rows tracts) (melt (aggregate origin (rows tracts)))
              (seed 42)) as [[dots st] Hres].
  - intros r Hr _. apply melt_in_iff in Hr. destruct Hr as (w & s & Hw & _ & ->).
    apply aggregate_in in Hw. destruct Hw as (t & Ht & _ & ->).
    cbn [lr_geoid w_geoid]. exists t.
    exact (filter_key_single (fun t => GEOID (l_tract t)) (rows tracts) t Hnd Ht).
  - rewrite Hres. eexists. eexists. split; [reflexivity|]. split; reflexivity.
Qed.

(** X14: [process_lodes] raises when a tract identifier labels two rows of
    the labelled tracts, as it does for a tract that met two boundaries,
    and the workplace records of that tract add up to 50 jobs or more in
    some sector: the lookup of its geometry gives a series, not a
    polygon. *)
Theorem process_lodes_raises_on_repeated_tract
  (origin : list origin_row) (tracts : frame labelled) (ambient : rng)
  (t1 t2 : labelled) (rest : list labelled) (s : string) :
  filter (fun t => String.eqb (GEOID (l_tract t)) (GEOID (l_tract t1))) (rows tracts)
  = t1 :: t2 :: rest ->
  In s sector_cols ->
  50 <= fold_right Z.add 0
          (map (fun o => o_counts o s)
               (filter (fun o => String.eqb (substring 0 11 (h_geocode o))
                                            (GEOID (l_tract t1)))
                       origin)) ->
  process_lodes origin tracts ambient = None.
Proof.
  intros Hdup Hs Hjobs. unfold process_lodes, synthesize.
  destruct (rows_dots _ _ _) as [res|] eqn:Hres; [|reflexivity].
  exfalso.
  assert (Ht1 : In t1 (rows tracts)).
  { assert (H : In t1 (filter (fun t => String.eqb (GEOID (l_tract t))
                                                   (GEOID (l_tract t1))) (rows tracts)))
      by (rewrite Hdup; now left).
    now apply filter_In in H. }
  assert (Ho : exists o, In o origin /\ tract_of o = GEOID (l_tract t1)).
  { unfold tract_of.
    destruct (filter (fun o => String.eqb (substring 0 11 (h_geocode o))
                                          (GEOID (l_tract t1))) origin)
      as [|o m] eqn:Hf; [cbn in Hjobs; lia|].
    assert (H : In o (filter (fun o => String.eqb (substring 0 11 (h_geocode o))
                                                  (GEOID (l_tract t1))) origin))
      by (rewrite Hf; now left).
    apply filter_In in H. destruct H as [H E]. apply String.eqb_eq in E. eauto. }
  set (w := mkWide (GEOID (l_tract t1)) (l_redev_name t1)
              (fun s => fold_right Z.add 0
                          (map (fun o => o_counts o s)
                               (filter (fun o => String.eqb (tract_of o)
                                                            (GEOID (l_tract t1)))
                                       origin)))).
  assert (Hw : In w (aggregate origin (rows tracts)))
    by (apply aggregate_in; exists t1; repeat split; assumption).
  set (r := mkLong (w_geoid w) (w_redev_name w) s (w_counts w s) (sector_lookup s)).
  assert (Hr : In r (melt (aggregate origin (rows tracts))))
    by (apply melt_in_iff; exists w, s; repeat split; assumption).
  destruct (rows_dots_each _ _ _ _ Hres r Hr) as (st0 & res0 & Hrow).
  unfold row_dots, loc_geometry in Hrow.
  cbn [jobs lr_geoid r w w_geoid w_counts] in Hrow.
  unfold tract_of in Hrow.
  set (j := fold_right Z.add 0 _) in *.
  replace (j <=? 0) with false in Hrow by (symmetry; apply Z.leb_gt; lia).
  rewrite Hdup in Hrow.
  replace (dot_count j <=? 0) with false in Hrow; [discriminate|].
  symmetry. apply Z.leb_gt.
  destruct (dot_count_floor j) as (Hmin & _).
  rewrite Hmin.
  assert (1 <= j / 50) by (apply Z.div_le_lower_bound; lia).
  lia.
Qed.

Lemma after_draws_add (a b : nat) (g : geom) (st : rng) :
  after_draws (a + b) g st = after_draws b g (after_draws a g st).
Proof.
  revert st. induction a as [|a IH]; intro st; cbn [Nat.add after_draws];
    [reflexivity | apply IH].
Qed.

(** X15: the dots of one row cost at most 20 draws from the bounding
    rectangle per target dot, and at least one draw per dot placed: after a
    row with target [count] the generator is in the state [k] draws leave
    it in, with [dots <= k <= 20 * count]. *)
Theorem place_dots_draws (count : nat) (g : geom) (r : long_row) (st : rng) :
  exists k,
    snd (place_dots count g r st) = after_draws k g st
    /\ (List.length (fst (place_dots count g r st)) <= k)%nat
    /\ (k <= 20 * count)%nat.
Proof.
  revert st. induction count as [|c IH]; intro st; cbn [place_dots].
  - exists 0%nat. cbn. repeat split; lia.
  - destruct (place_attempts_spec 20 g r st) as (k1 & Hk1 & Hs1 & _ & Hres).
    destruct (place_attempts 20 g r st) as [o st1]. cbn [fst snd] in Hs1, Hres.
    destruct (IH st1) as (k2 & Hs2 & Hlen & Hk2).
    destruct (place_dots c g r st1) as [ds st2]. cbn [fst snd] in *.
    exists (k1 + k2)%nat. rewrite after_draws_add, <- Hs1, <- Hs2.
    split; [reflexivity|].
    destruct o as [d|]; cbn [List.length]; [destruct Hres as (H1 & _)|]; lia.
Qed.

Lemma concat_length_bound {A : Type} (ll : list (list A)) (n : nat) :
  Forall (fun l => (List.length l <= n)%nat) ll ->
  (List.length (List.concat ll) <= List.length ll * n)%nat.
Proof.
  induction 1 as [|l t Hl Ht IH]; cbn [List.concat List.length]; [lia|].
  rewrite length_app. lia.
Qed.

Lemma rows_dots_below_threshold (tracts : list labelled) (l : list long_row)
      (st st' : rng) (dots : list dot) :
  (forall r, In r l -> jobs r < 50) ->
  rows_dots tracts l st = Some (dots, st') -> dots = [] /\ st' = st.
Proof.
  revert st st' dots. induction l as [|r t IH]; intros st st' dots Hlow;
    cbn [rows_dots].
  - intro E. injection E as <- <-. split; reflexivity.
  - destruct (row_dots tracts r st) as [[ds st1]|] eqn:Hr; [|discriminate].
    destruct (rows_dots tracts t st1) as [[ds' st2]|] eqn:Ht; [|discriminate].
    intro E. injection E as <- <-.
    destruct (IH st1 st2 ds' (fun r' H => Hlow r' (or_intror H)) Ht) as [-> ->].
    assert (Hj : jobs r < 50) by (apply Hlow; now left).
    unfold row_dots in Hr.
    destruct (jobs r <=? 0) eqn:Hz.
    + injection Hr as <- <-. split; reflexivity.
    + apply Z.leb_gt in Hz.
      assert (Hc : dot_count (jobs r) = 0).
      { unfold dot_count, jobs_per_dot, max_dots_per_tract.
        rewrite Z.div_small by lia. reflexivity. }
      rewrite Hc in Hr. cbn [Z.to_nat Z.leb Z.compare place_dots] in Hr.
      destruct (loc_geometry tracts (lr_geoid r)); [| |discriminate];
        injection Hr as <- <-; split; reflexivity.
Qed.

(** X16: a run that returns places at most 250 dots per row of the long
    form; and when every row has fewer than 50 jobs it places no dot and
    leaves the generator in its freshly seeded state, no draw made. *)
Theorem synthesis_output_size
  (tracts : list labelled) (long_df : list long_row) (ambient st' : rng)
  (dots : list dot) :
  synthesize tracts long_df ambient = Some (dots, st') ->
  (List.length dots <= List.length long_df * 250)%nat
  /\ ((forall r, In r long_df -> jobs r < 50) -> dots = [] /\ st' = seed 42).
Proof.
  unfold synthesize. intro E. split.
  - destruct (rows_dots_spec _ _ _ _ _ E) as (per_row & -> & Hall).
    rewrite (Forall2_length Hall).
    apply concat_length_bound.
    clear E. induction Hall as [|r ds l per Hok _ IH]; constructor; [|exact IH].
    destruct Hok as (H1 & _ & H3 & _).
    destruct (Z_le_gt_dec (jobs r) 0) as [Hle | Hgt].
    + rewrite (H1 Hle). cbn. lia.
    + destruct (H3 ltac:(lia)) as (Hlen & _ & Hcap). lia.
  - intro Hlow. exact (rows_dots_below_threshold _ _ _ _ _ Hlow E).
Qed.

End LodesMore.

(** On the sample records the pass returns; the block of the tract outside
    the tract file leaves no row in the long form. *)
Lemma process_lodes_returns_on_unique_tracts_witness :
  exists out st,
    @process_lodes Toy.boxes Toy.lcg Sample.origin Sample.tracts 0 = Some (out, st)
    /\ List.length (out_long out) = 20%nat.
Proof.
  destruct (@process_lodes_returns_on_unique_tracts Toy.boxes Toy.lcg
              Sample.origin Sample.tracts 0) as (out & st & Hout & Hlong & _).
  - repeat (constructor; [simpl; intuition discriminate|]). constructor.
  - exists out, st. split; [exact Hout|]. rewrite Hlong. reflexivity.
Defined.

(** The first toy tract labelled twice, with 60 retail jobs. *)
Lemma process_lodes_raises_on_repeated_tract_witness :
  @process_lodes Toy.boxes Toy.lcg Sample.origin_a Sample.tracts_twice 0 = None.
Proof.
  eapply (@process_lodes_raises_on_repeated_tract Toy.boxes Toy.lcg
            Sample.origin_a Sample.tracts_twice 0
            (@mkLabelled Toy.boxes Toy.tract_a (Some "Near Southside"))
            (@mkLabelled Toy.boxes Toy.tract_a (Some "Fairmount")) [] "CNS07").
  - reflexivity.
  - unfold sector_cols. simpl. tauto.
  - vm_compute. discriminate.
Defined.

(** The two dots of the toy run against the bound of 40 rows. *)
Lemma synthesis_output_size_witness :
  exists dots st',
    @synthesize Toy.boxes Toy.lcg Toy.labelled_tracts (melt Toy.lodes) 7
    = Some (dots, st')
    /\ (List.length dots <= 40 * 250)%nat.
Proof.
  eexists. eexists. split; [vm_compute; reflexivity|].
  exact (proj1 (@synthesis_output_size Toy.boxes Toy.lcg Toy.labelled_tracts
                  (melt Toy.lodes) 7 _ _ ltac:(vm_compute; reflexivity))).
Defined.

(* ================================================================== *)
(** * Year probing *)

Lemma year_range_in (start_year end_year y : Z) :
  In y (year_range start_year end_year) <-> start_year <= y <= end_year.
Proof.
  unfold year_range. rewrite in_map_iff. split.
  - intros (i & <- & Hi). apply in_seq in Hi. lia.
  - intro H. exists (Z.to_nat (y - start_year)). split; [lia|].
    apply in_seq. lia.
Qed.

Lemma year_range_sorted (start_year end_year : Z) :
  StronglySorted Z.lt (year_range start_year end_year).
Proof.
  unfold year_range.
  generalize (Z.to_nat (end_year + 1 - start_year)) as n.
  generalize 0%nat as s.
  intros s n. revert s. induction n as [|n IH]; intro s; cbn [seq map]; constructor.
  - apply IH.
  - apply Forall_forall. intros y Hy. apply in_map_iff in Hy.
    destruct Hy as (i & <- & Hi). apply in_seq in Hi. lia.
Qed.

(** X17: [detect_years] returns, in ascending order and without repeats,
    exactly the years from the start year to the end year (the current year
    when none is given) whose probe answered with status 200; a probe that
    fails to connect or answers with another status leaves its year out,
    and the list is empty when the end year precedes the start year. *)
Theorem detect_years_spec
  (probe : Z -> option Z) (now_year start_year : Z) (end_year : option Z) :
  let last := match end_year with None => now_year | Some e => e end in
  (forall y, In y (detect_years probe now_year start_year end_year)
             <-> start_year <= y <= last /\ probe y = Some 200)
  /\ StronglySorted Z.lt (detect_years probe now_year start_year end_year)
  /\ (last < start_year -> detect_years probe now_year start_year end_year = []).
Proof.
  intro last. unfold detect_years. fold last. split; [|split].
  - intro y. rewrite filter_In, year_range_in.
    destruct (probe y) as [code|].
    + rewrite Z.eqb_eq. split; [intros [H ->]; now split|].
      intros [H E]. injection E as ->. now split.
    + split; [intros [_ H] | intros [_ H]]; discriminate.
  - apply filter_sorted, year_range_sorted.
  - intro H. unfold year_range.
    replace (Z.to_nat (last + 1 - start_year)) with 0%nat by lia. reflexivity.
Qed.

(* ================================================================== *)
(** * Ties in the Dominant-Sector Selector *)

Lemma blocks_nth_error {A B C : Type} (mk : A -> B -> C) (ss : list A) (l : list B)
      (k p : nat) (s : A) (w : B) :
  nth_error ss k = Some s -> nth_error l p = Some w ->
  nth_error (flat_map (fun s => map (mk s) l) ss) (k * List.length l + p)
  = Some (mk s w).
Proof.
  intros Hs Hw.
  assert (Hp : (p < List.length l)%nat) by (apply nth_error_Some; congruence).
  revert k Hs. induction ss as [|s0 t IH]; intros k Hs;
    [destruct k; discriminate|].
  cbn [flat_map]. destruct k as [|k]; cbn [nth_error] in Hs.
  - injection Hs as ->. cbn [Nat.mul Nat.add].
    rewrite nth_error_app1 by (now rewrite length_map).
    now rewrite nth_error_map, Hw.
  - rewrite nth_error_app2 by (rewrite length_map; lia).
    rewrite length_map.
    replace (Datatypes.S k * List.length l + p - List.length l)%nat
      with (k * List.length l + p)%nat by lia.
    now apply IH.
Qed.

Lemma blocks_index {A B C : Type} (mk : A -> B -> C) (ss : list A) (l : list B)
      (i : nat) (x : C) :
  nth_error (flat_map (fun s => map (mk s) l) ss) i = Some x ->
  exists k p s w,
    i = (k * List.length l + p)%nat /\ (p < List.length l)%nat
    /\ nth_error ss k = Some s /\ nth_error l p = Some w /\ x = mk s w.
Proof.
  revert i. induction ss as [|s0 t IH]; intro i; cbn [flat_map];
    [destruct i; discriminate|].
  destruct (Nat.lt_ge_cases i (List.length l)) as [Hlt | Hge].
  - rewrite nth_error_app1 by (now rewrite length_map).
    rewrite nth_error_map.
    destruct (nth_error l i) as [w|] eqn:Hw; [|discriminate].
    intro E. injection E as <-.
    exists 0%nat, i, s0, w. repeat split; [assumption | assumption].
  - rewrite nth_error_app2 by (now rewrite length_map).
    rewrite length_map. intro H.
    destruct (IH _ H) as (k & p & s & w & Ei & Hp & Hs & Hw & Ex).
    exists (Datatypes.S k), p, s, w.
    repeat split; try assumption. cbn [Nat.mul]. lia.
Qed.

Lemma dominant_of_tract (long_df : list long_row) (g : string) (i : nat) (r : long_row) :
  In g (map lr_geoid long_df) ->
  idxmax g long_df = Some i -> nth_error long_df i = Some r ->
  filter (fun d => String.eqb (lr_geoid d) g) (dominant long_df) = [r].
Proof.
  intros Hg Hidx Hi. unfold dominant.
  rewrite (filter_flat_map_key lr_geoid).
  - now rewrite Hidx, Hi.
  - eapply Permutation_NoDup; [symmetry; apply group_keys_perm|].
    apply NoDup_nodup.
  - eapply Permutation_in; [symmetry; apply group_keys_perm|].
    now apply nodup_In.
  - intros k x Hx.
    destruct (idxmax k long_df) as [ik|] eqn:Hik; [|contradiction].
    destruct (nth_error long_df ik) as [rk|] eqn:Hrk; [|contradiction].
    destruct Hx as [<- | []].
    unfold idxmax in Hik.
    destruct (max_jobs (group_of k long_df)) as [m|]; [|discriminate].
    destruct (find _ (group_of k long_df)) as [[i' r']|] eqn:Hf; [|discriminate].
    injection Hik as <-.
    apply find_some in Hf. destruct Hf as [Hf _].
    apply group_of_in in Hf. destruct Hf as [Hn Ek].
    rewrite Hrk in Hn. now injection Hn as ->.
Qed.

(** X18: for a tract with one row in the aggregated table, the selected row
    is that of a sector with the largest count of the tract, and among
    sectors with that count the one that comes first in the order of the
    sector columns, CNS01 to CNS20: every sector before it has a strictly
    smaller count. *)
Theorem dominant_breaks_ties_by_sector_order
  (lodes : list wide_row) (w : wide_row) :
  filter (fun x => String.eqb (w_geoid x) (w_geoid w)) lodes = [w] ->
  exists s,
    In s sector_cols
    /\ filter (fun d => String.eqb (lr_geoid d) (w_geoid w)) (dominant (melt lodes))
       = [ mkLong (w_geoid w) (w_redev_name w) s (w_counts w s) (sector_lookup s) ]
    /\ (forall s', In s' sector_cols -> w_counts w s' <= w_counts w s)
    /\ (forall pre post, sector_cols = (pre ++ s :: post)%list ->
          forall s', In s' pre -> w_counts w s' < w_counts w s).
Proof.
  intro Hone.
  assert (Hw : In w lodes).
  { assert (H : In w (filter (fun x => String.eqb (w_geoid x) (w_geoid w)) lodes))
      by (rewrite Hone; now left).
    now apply filter_In in H. }
  assert (Huniq : forall w', In w' lodes -> w_geoid w' = w_geoid w -> w' = w).
  { intros w' Hw' E.
    assert (H : In w' (filter (fun x => String.eqb (w_geoid x) (w_geoid w)) lodes))
      by (apply filter_In; split; [assumption | now apply String.eqb_eq]).
    rewrite Hone in H. destruct H as [H | []]. now symmetry. }
  destruct (In_nth_error _ _ Hw) as [p Hp].
  assert (Hrow : forall k s', nth_error sector_cols k = Some s' ->
            nth_error (melt lodes) (k * List.length lodes + p)
            = Some (mkLong (w_geoid w) (w_redev_name w) s' (w_counts w s')
                      (sector_lookup s'))).
  { intros k s' Hk. unfold melt.
    exact (blocks_nth_error
             (fun s w => mkLong (w_geoid w) (w_redev_name w) s (w_counts w s)
                           (sector_lookup s))
             sector_cols lodes k p s' w Hk Hp). }
  assert (Hg : In (w_geoid w) (map lr_geoid (melt lodes))).
  { apply in_map_iff. eexists. split; [|eapply nth_error_In, (Hrow 0%nat); reflexivity].
    reflexivity. }
  destruct (idxmax_first_max _ _ Hg) as (i & r & Hidx & Hi & Eg & Hmax & Hbefore).
  unfold melt in Hi.
  destruct (blocks_index
              (fun s w => mkLong (w_geoid w) (w_redev_name w) s (w_counts w s)
                            (sector_lookup s))
              sector_cols lodes i r Hi) as (k & p' & s & w' & Ei & Hp' & Hk & Hw' & Er).
  fold (melt lodes) in Hi.
  assert (Ew : w' = w).
  { apply Huniq; [eapply nth_error_In; eassumption|].
    rewrite Er in Eg. exact Eg. }
  subst w'. exists s.
  split; [eapply nth_error_In; eassumption|].
  split; [rewrite <- Er; now apply dominant_of_tract with (i := i)|].
  split.
  - intros s' Hs'. destruct (In_nth_error _ _ Hs') as [k' Hk'].
    pose proof (Hmax _ _ (Hrow k' s' Hk') eq_refl) as H.
    rewrite Er in H. exact H.
  - intros pre post Hsplit s' Hs'.
    assert (Hnd : NoDup sector_cols).
    { replace sector_cols with (nodup string_dec sector_cols)
        by (vm_compute; reflexivity).
      apply NoDup_nodup. }
    assert (Ek : k = List.length pre).
    { apply (proj1 (NoDup_nth_error sector_cols) Hnd).
      - apply nth_error_Some. rewrite Hk. discriminate.
      - rewrite Hk, Hsplit, nth_error_app2, Nat.sub_diag by lia. reflexivity. }
    destruct (In_nth_error _ _ Hs') as [k' Hk'].
    assert (Hlt : (k' < List.length pre)%nat)
      by (apply nth_error_Some; rewrite Hk'; discriminate).
    assert (Hk'' : nth_error sector_cols k' = Some s')
      by (rewrite Hsplit, nth_error_app1; assumption).
    assert (Hp0 : (p < List.length lodes)%nat)
      by (apply nth_error_Some; rewrite Hp; discriminate).
    pose proof (Hbefore (k' * List.length lodes + p)%nat _
                  ltac:(rewrite Ei, Ek; nia) (Hrow k' s' Hk'') eq_refl) as H.
    rewrite Er in H. exact H.
Qed.

(** With 40 jobs in manufacturing (CNS05) and in retail (CNS07), the
    selected sector is manufacturing. *)
Lemma dominant_breaks_ties_by_sector_order_witness :
  exists r,
    filter (fun d => String.eqb (lr_geoid d) "48439100200")
           (dominant (melt Sample.lodes_tie)) = [r]
    /\ jobs r = 40.
Proof.
  destruct (dominant_breaks_ties_by_sector_order Sample.lodes_tie
              (mkWide "48439100200" (Some "None")
                 (fun s => if String.eqb s "CNS07" then 40
                           else if String.eqb s "CNS05" then 40
                           else if String.eqb s "CNS04" then 10 else 0))
              eq_refl) as (s & Hs & Hdom & Hmax & _).
  eexists. split; [exact Hdom|].
  cbn [jobs w_counts].
  pose proof (Hmax "CNS05" ltac:(unfold sector_cols; simpl; tauto)) as H5.
  cbn [w_counts] in H5. cbn in H5.
  unfold sector_cols in Hs. cbn [map fst SECTOR_MAP In] in Hs.
  repeat (destruct Hs as [<- | Hs]; [cbn in H5 |- *; try lia; try reflexivity|]).
  contradiction.
Defined.

(* ================================================================== *)
(** * The two steps of [main] together *)

Section PipelineFacts.
Context {S : Shapely} {V : PyValue} {R : PyRandom coord}.

(** X19: when no tract identifier is repeated in the tract file and no
    tract polygon intersects more than one redevelopment boundary, the
    labelled tracts the panel step writes back are the tracts of the file,
    one row each, and the job step that reads them does not raise. *)
Theorem job_step_returns_after_single_labels
  (tracts : frame tract) (redev : boundary_table) (T : frame labelled)
  (origin : list origin_row) (ambient : rng) :
  add_redev_to_tracts tracts redev = Some T ->
  NoDup (map GEOID (rows tracts)) ->
  (forall t, In t (rows tracts) ->
     (List.length (filter (fun b => intersects (t_geometry t) (b_geometry b))
                          (rows (bt_frame redev))) <= 1)%nat) ->
  map l_tract (rows T) = rows tracts
  /\ exists res, process_lodes origin T ambient = Some res.
Proof.
  intros HT Hnd Hone.
  assert (Hrows : map l_tract (rows T) = rows tracts).
  { unfold add_redev_to_tracts, sjoin_operands in HT.
    destruct (pick_name_column (bt_columns redev)) as [name_col|]; [|discriminate].
    injection HT as <-. cbn [rows sjoin].
    rewrite map_map. cbn [l_tract].
    rewrite (flat_map_singletons _ (fun t => t) l_tract).
    - apply map_id.
    - intros t Ht. apply matches_of_single. cbn [rows].
      rewrite filter_map_comm, length_map. cbn [snd]. now apply Hone. }
  split; [exact Hrows|].
  assert (Hnd' : NoDup (map (fun t => GEOID (l_tract t)) (rows T))).
  { rewrite <- (map_map l_tract GEOID), Hrows. exact Hnd. }
  unfold process_lodes, synthesize.
  destruct (rows_dots_total (rows T) (melt (aggregate origin (rows T))) (seed 42))
    as [[dots st] Hres].
  - intros r Hr _. apply melt_in_iff in Hr. destruct Hr as (w & s & Hw & _ & ->).
    apply aggregate_in in Hw. destruct Hw as (t & Ht & _ & ->).
    cbn [lr_geoid w_geoid]. exists t.
    exact (filter_key_single (fun t => GEOID (l_tract t)) (rows T) t Hnd' Ht).
  - rewrite Hres. eauto.
Qed.

End PipelineFacts.

(** The toy tract file with the single boundary, then the sample records. *)
Lemma job_step_returns_after_single_labels_witness :
  exists T res,
    add_redev_to_tracts Toy.tracts Toy.redev_single = Some T
    /\ @process_lodes Toy.boxes Toy.lcg Sample.origin T 0 = Some res.
Proof.
  destruct (add_redev_to_tracts Toy.tracts Toy.redev_single) as [T|] eqn:HT;
    [|vm_compute in HT; discriminate].
  destruct (@job_step_returns_after_single_labels Toy.boxes Toy.text Toy.lcg
              Toy.tracts Toy.redev_single T Sample.origin 0 HT)
    as (_ & res & Hres).
  - repeat (constructor; [simpl; intuition discriminate|]). constructor.
  - intros t [<- | [<- | []]]; vm_compute; lia.
  - exists T, res. split; [reflexivity | exact Hres].
Defined.
